(** * SmartObject (epSmartObject.h): intrusive reference counting

    Shallow embedding of the [_DEBUG] branch of [epl::SmartObject], the
    only branch whose bodies live in the header.  The logging calls
    ([LOG_THIS_MSG]) are observational and are not modelled; the
    [fileName]/[funcName]/[lineNum] parameters, which only feed the log,
    are dropped.

    Memory is a heap of objects (addresses [nat] standing for [this]) and
    a heap of lock implementations (the [BaseLock*] the object owns).
    Reading a field of freed memory or calling through a null or freed
    [BaseLock*] is undefined behaviour, modelled by the [Undef] outcome.
    [m_refCount] is a C++ [int]: 32-bit two's complement, the wrap-around
    written out by [int32]. *)

From Stdlib Require Import ZArith Lia List Bool FunctionalExtensionality.
Import ListNotations.
Open Scope Z_scope.

(** ** Data *)

(** [LockPolicy] is a C++ enum; a value outside its three enumerators
    (reachable by a cast) is carried by [LOCK_POLICY_OTHER]. *)
Inductive LockPolicy : Type :=
| LOCK_POLICY_CRITICALSECTION
| LOCK_POLICY_MUTEX
| LOCK_POLICY_NONE
| LOCK_POLICY_OTHER (raw : Z).

(** The three concrete lock classes behind [BaseLock]. *)
Inductive LockKind : Type :=
| CriticalSectionEx
| Mutex
| NoLock.

(** A live lock implementation: its class and how many times it is
    currently held by the (single) running thread.  Windows critical
    sections and mutexes are recursive for their owner, so a nested
    [Lock] counts up. *)
Record BaseLock : Type := mkBaseLock {
  lk_kind : LockKind;
  lk_held : nat
}.

(** The three fields of the class. *)
Record SmartObject : Type := mkSmartObject {
  m_refCount : Z;
  m_refCounterLock : option nat;   (* [None] is the null pointer *)
  m_lockPolicy : LockPolicy
}.

(** Observable events, in program order. *)
Inductive Event : Type :=
| EvLock (l : nat)          (* m_refCounterLock->Lock() *)
| EvUnlock (l : nat)        (* m_refCounterLock->Unlock() *)
| EvCount (c : Z)           (* a write of m_refCount *)
| EvNewLock (l : nat)       (* EP_NEW CriticalSectionEx/Mutex/NoLock *)
| EvDestroy (o : nat)       (* EP_DELETE this: destructor entered *)
| EvFreeLock (l : nat)      (* EP_DELETE m_refCounterLock *)
| EvFree (o : nat).         (* memory of the object released *)

(** The two exceptions raised by the EP_VERIFY macros, with the count
    value printed into the message. *)
Inductive Exc : Type :=
| domain_error (refCount : Z)     (* "Reference Count is negative Value!" *)
| runtime_error (refCount : Z).   (* "The Reference Count is not 0!!" *)

Definition heap (A : Type) : Type := nat -> option A.

Definition upd {A : Type} (h : heap A) (k : nat) (v : option A) : heap A :=
  fun k' => if Nat.eqb k' k then v else h k'.
Arguments upd : simpl never.

Record St : Type := mkSt {
  objs : heap SmartObject;
  locks : heap BaseLock;
  next_lock : nat;
  trace : list Event
}.

Definition empty_st : St :=
  {| objs := fun _ => None; locks := fun _ => None; next_lock := 0%nat;
     trace := [] |}.

(** ** A state / exception / undefined-behaviour monad *)

Inductive Res (A : Type) : Type :=
| Ok (a : A) (s : St)
| Thrown (e : Exc) (s : St)
| Undef.
Arguments Ok {A} a s.
Arguments Thrown {A} e s.
Arguments Undef {A}.

Definition M (A : Type) : Type := St -> Res A.

Definition ret {A : Type} (a : A) : M A := fun s => Ok a s.

Definition bind {A B : Type} (m : M A) (f : A -> M B) : M B :=
  fun s => match m s with
           | Ok a s' => f a s'
           | Thrown e s' => Thrown e s'
           | Undef => Undef
           end.

Definition throw {A : Type} (e : Exc) : M A := fun s => Thrown e s.

(** Run [fin] after [m], whether [m] returns or raises; an exception of
    [m] propagates once [fin] has run (unless [fin] itself fails). *)
Definition finally {A : Type} (m : M A) (fin : M unit) : M A :=
  fun s => match m s with
           | Ok a s' => match fin s' with
                        | Ok _ s'' => Ok a s''
                        | Thrown e s'' => Thrown e s''
                        | Undef => Undef
                        end
           | Thrown e s' => match fin s' with
                            | Ok _ s'' => Thrown e s''
                            | Thrown e' s'' => Thrown e' s''
                            | Undef => Undef
                            end
           | Undef => Undef
           end.

Definition undef {A : Type} : M A := fun _ => Undef.

Notation "x <- m ;; k" := (bind m (fun x => k))
  (at level 61, m at next level, right associativity).
Notation "m ;; k" := (bind m (fun _ => k))
  (at level 61, right associativity).

(** ** Machine integers *)

Definition int32 (z : Z) : Z := (z + 2^31) mod 2^32 - 2^31.

(** ** Primitive memory operations *)

Definition emit (e : Event) : M unit :=
  fun s => Ok tt {| objs := objs s; locks := locks s; next_lock := next_lock s;
                    trace := trace s ++ [e] |}.

Definition get_obj (this : nat) : M SmartObject :=
  fun s => match objs s this with Some o => Ok o s | None => Undef end.

Definition put_obj (this : nat) (o : SmartObject) : M unit :=
  fun s => Ok tt {| objs := upd (objs s) this (Some o); locks := locks s;
                    next_lock := next_lock s; trace := trace s |}.

(** this->m_refCount *)
Definition rd_count (this : nat) : M Z :=
  o <- get_obj this ;; ret (m_refCount o).

(** this->m_refCounterLock *)
Definition rd_lock (this : nat) : M (option nat) :=
  o <- get_obj this ;; ret (m_refCounterLock o).

(** this->m_refCount = c *)
Definition wr_count (this : nat) (c : Z) : M unit :=
  o <- get_obj this ;;
  put_obj this {| m_refCount := c; m_refCounterLock := m_refCounterLock o;
                  m_lockPolicy := m_lockPolicy o |} ;;
  emit (EvCount c).

Definition get_lock (l : nat) : M BaseLock :=
  fun s => match locks s l with Some b => Ok b s | None => Undef end.

Definition put_lock (l : nat) (b : option BaseLock) : M unit :=
  fun s => Ok tt {| objs := objs s; locks := upd (locks s) l b;
                    next_lock := next_lock s; trace := trace s |}.

(** p->Lock() through a [BaseLock*]: null or freed is undefined. *)
Definition Lock (p : option nat) : M unit :=
  match p with
  | None => undef
  | Some l => b <- get_lock l ;;
              put_lock l (Some (mkBaseLock (lk_kind b) (S (lk_held b)))) ;;
              emit (EvLock l)
  end.

(** p->Unlock() *)
Definition Unlock (p : option nat) : M unit :=
  match p with
  | None => undef
  | Some l => b <- get_lock l ;;
              put_lock l (Some (mkBaseLock (lk_kind b) (Nat.pred (lk_held b)))) ;;
              emit (EvUnlock l)
  end.

(** EP_NEW CriticalSectionEx() / Mutex() / NoLock(): a fresh lock. *)
Definition new_lock (k : LockKind) : M nat :=
  fun s => let l := next_lock s in
    Ok l {| objs := objs s; locks := upd (locks s) l (Some (mkBaseLock k 0));
            next_lock := S l; trace := trace s ++ [EvNewLock l] |}.

(** EP_DELETE m_refCounterLock *)
Definition delete_lock (l : nat) : M unit :=
  _ <- get_lock l ;; put_lock l None ;; emit (EvFreeLock l).

Definition free_obj (this : nat) : M unit :=
  fun s => Ok tt {| objs := upd (objs s) this None; locks := locks s;
                    next_lock := next_lock s; trace := trace s ++ [EvFree this] |}.

(** Modelled from the spec: [EP_VERIFY_DOMAIN_ERROR_W_MSG] and
    [EP_VERIFY_RUNTIME_ERROR_W_MSG] of epException.h (not in the
    sources).  The spec's error-signalling mechanism "raises a
    distinguishable, catchable failure" carrying a message with the
    offending count: when the expression is false the macro raises, and
    the rest of the enclosing function does not run. *)
Definition EP_VERIFY (cond : bool) (e : Exc) : M unit :=
  if cond then ret tt else throw e.

(** ** The class *)

Section SmartObjectMethods.

Variable this : nat.

(** Retain: [LockObj lock(m_refCounterLock); m_refCount++;] and the
    [LockObj] destructor unlocks, on scope exit, the pointer it captured. *)
Definition Retain : M unit :=
  l <- rd_lock this ;; Lock l ;;
  c <- rd_count this ;; wr_count this (int32 (c + 1)) ;;
  Unlock l.

(** virtual ~SmartObject() *)
Definition Destructor : M unit :=
  l <- rd_lock this ;; Lock l ;;
  c <- rd_count this ;; wr_count this (int32 (c - 1)) ;;
  c <- rd_count this ;;
  (if negb (Z.eqb c 0) then EP_VERIFY (Z.eqb c 0) (runtime_error c)
   else ret tt) ;;
  l <- rd_lock this ;; Unlock l ;;
  l <- rd_lock this ;;
  match l with
  | Some p => delete_lock p
  | None => ret tt
  end.

(** EP_DELETE this: the destructor runs, then the memory is freed.  The
    delete-expression calls the deallocation function also when the
    destructor exits by an exception, which then propagates to the
    caller.  This is the C++03 rule, and that of Visual C++ before 2015,
    where a destructor is not implicitly [noexcept]; under C++11 rules the
    same throw would call [std::terminate] instead. *)
Definition delete_this : M unit :=
  _ <- get_obj this ;; emit (EvDestroy this) ;; finally Destructor (free_obj this).

(** Release *)
Definition Release : M unit :=
  l <- rd_lock this ;; Lock l ;;
  c <- rd_count this ;; wr_count this (int32 (c - 1)) ;;
  c <- rd_count this ;;
  if Z.eqb c 0 then
    (c <- rd_count this ;; wr_count this (int32 (c + 1)) ;;
     l <- rd_lock this ;; Unlock l ;;
     delete_this)
  else
    ((if Z.ltb c 0 then EP_VERIFY (Z.geb c 0) (domain_error c) else ret tt) ;;
     l <- rd_lock this ;; Unlock l).

(** The [switch] shared by both constructors. *)
Definition lock_for (p : LockPolicy) : M (option nat) :=
  match p with
  | LOCK_POLICY_CRITICALSECTION => l <- new_lock CriticalSectionEx ;; ret (Some l)
  | LOCK_POLICY_MUTEX => l <- new_lock Mutex ;; ret (Some l)
  | LOCK_POLICY_NONE => l <- new_lock NoLock ;; ret (Some l)
  | LOCK_POLICY_OTHER _ => ret None
  end.

(** SmartObject(LockPolicy lockPolicyType): run on the raw memory at
    [this]; the fields are written in source order. *)
Definition SmartObject_ctor (lockPolicyType : LockPolicy) : M unit :=
  put_obj this (mkSmartObject 1 None lockPolicyType) ;;
  l <- lock_for lockPolicyType ;;
  put_obj this (mkSmartObject 1 l lockPolicyType).

(** SmartObject(const SmartObject& b) *)
Definition SmartObject_copy (b : nat) : M unit :=
  ob <- get_obj b ;;
  let p := m_lockPolicy ob in
  put_obj this (mkSmartObject 1 None p) ;;
  l <- lock_for p ;;
  put_obj this (mkSmartObject 1 l p).

(** Modelled from the spec: [operator=] is only declared in the header
    (its body is in a source file that is not present).  The spec: it
    "returns a reference to self after copying only derived-type payload
    fields (this base contributes no copyable fields)", leaving count,
    lock and policy of both operands unchanged. *)
Definition operator_assign (b : nat) : M nat :=
  _ <- get_obj this ;; _ <- get_obj b ;; ret this.

End SmartObjectMethods.

(** ** Client call sequences *)

Inductive Op : Type := ORetain | ORelease.

Definition step (this : nat) (o : Op) : M unit :=
  match o with ORetain => Retain this | ORelease => Release this end.

Fixpoint run (this : nat) (ops : list Op) : M unit :=
  match ops with
  | [] => ret tt
  | o :: t => step this o ;; run this t
  end.

(** Construct at address 0 in the empty heap, then run [ops]. *)
Definition scenario (p : LockPolicy) (ops : list Op) : Res unit :=
  (SmartObject_ctor 0 p ;; run 0%nat ops) empty_st.

Definition alive (this : nat) (s : St) : bool :=
  match objs s this with Some _ => true | None => false end.

Definition count_of (this : nat) (s : St) : option Z :=
  option_map m_refCount (objs s this).

Definition res_state {A : Type} (r : Res A) : option St :=
  match r with Ok _ s => Some s | Thrown _ s => Some s | Undef => None end.

Definition is_destroy (e : Event) : bool :=
  match e with EvDestroy _ => true | _ => false end.

Definition destroys (t : list Event) : nat :=
  List.length (List.filter is_destroy t).

(** ** Auxiliary definitions and concrete states *)

Definition set_count (o : SmartObject) (c : Z) : SmartObject :=
  mkSmartObject c (m_refCounterLock o) (m_lockPolicy o).

(** The lock class the constructors' [switch] builds for a policy. *)
Definition policy_kind (p : LockPolicy) : option LockKind :=
  match p with
  | LOCK_POLICY_CRITICALSECTION => Some CriticalSectionEx
  | LOCK_POLICY_MUTEX => Some Mutex
  | LOCK_POLICY_NONE => Some NoLock
  | LOCK_POLICY_OTHER _ => None
  end.

Definition int_range (z : Z) : Prop := -2^31 <= z < 2^31.

(** Outstanding references never exceed [INT_MAX] along [ops], starting
    from [c]. *)
Fixpoint bounded (c : Z) (ops : list Op) : Prop :=
  match ops with
  | [] => True
  | ORetain :: t => c + 1 <= 2^31 - 1 /\ bounded (c + 1) t
  | ORelease :: t => bounded (c - 1) t
  end.

(** Number of Retain calls minus number of Release calls. *)
Fixpoint net (ops : list Op) : Z :=
  match ops with
  | [] => 0
  | ORetain :: t => 1 + net t
  | ORelease :: t => net t - 1
  end.

(** Concrete states: an object constructed at address 0 with a critical
    section, and the same object after one Retain. *)
Definition st_ctor_cs : St :=
  match SmartObject_ctor 0 LOCK_POLICY_CRITICALSECTION empty_st with
  | Ok _ s => s | _ => empty_st end.

Definition st_retained_cs : St :=
  match Retain 0 st_ctor_cs with Ok _ s => s | _ => empty_st end.

(** A live object whose count is already 0 (reachable through the 32-bit
    wrap-around, see [negative_count_reachable]). *)
Definition st_zero_cs : St :=
  {| objs := upd (fun _ => None) 0 (Some (mkSmartObject 0 (Some 0%nat) LOCK_POLICY_CRITICALSECTION));
     locks := upd (fun _ => None) 0 (Some (mkBaseLock CriticalSectionEx 0));
     next_lock := 1; trace := [] |}.

(** Two live objects: O at 0 with count 1 and P at 1 with count 3. *)
Definition st_O_P : St :=
  match (SmartObject_ctor 0 LOCK_POLICY_CRITICALSECTION ;;
         SmartObject_ctor 1 LOCK_POLICY_CRITICALSECTION ;;
         Retain 1 ;; Retain 1) empty_st with
  | Ok _ s => s | _ => empty_st end.

(** The state an outcome leaves, if any. *)
Definition st_of {A : Type} (r : Res A) : St :=
  match r with Ok _ s => s | Thrown _ s => s | Undef => empty_st end.

Definition st_ops_example : St :=
  match scenario LOCK_POLICY_MUTEX [ORetain; ORetain; ORelease] with
  | Ok _ s => s | _ => empty_st end.

(** What a method call that returns (normally or by an exception) may
    change: nothing but [this] (whose lock pointer and policy stay) and the
    lock [this] owns; no allocation. *)
Definition frame_ok (this : nat) (s s' : St) : Prop :=
  next_lock s' = next_lock s /\
  (forall x, x <> this -> objs s' x = objs s x) /\
  exists o l, objs s this = Some o /\ m_refCounterLock o = Some l /\
    (forall l', l' <> l -> locks s' l' = locks s l') /\
    (objs s' this = None \/ exists c, objs s' this = Some (set_count o c)).

(** Every lock pointer held by a live object was allocated before
    [next_lock], and no two live objects hold the same lock pointer. *)
Definition owned_locks_ok (s : St) : Prop :=
  (forall x o l, objs s x = Some o -> m_refCounterLock o = Some l ->
     (l < next_lock s)%nat) /\
  (forall x y ox oy l, x <> y -> objs s x = Some ox -> objs s y = Some oy ->
     m_refCounterLock ox = Some l -> m_refCounterLock oy = Some l -> False).

(** ** Heap lemmas *)

Lemma upd_eq {A : Type} (h : heap A) k v : upd h k v k = v.
Proof. unfold upd. rewrite Nat.eqb_refl. reflexivity. Qed.

Lemma upd_neq {A : Type} (h : heap A) k k' v : k' <> k -> upd h k v k' = h k'.
Proof. intro H. unfold upd. apply Nat.eqb_neq in H. rewrite H. reflexivity. Qed.

Lemma upd_upd {A : Type} (h : heap A) k v w : upd (upd h k v) k w = upd h k w.
Proof.
  apply functional_extensionality. intro k'. unfold upd.
  destruct (Nat.eqb k' k); reflexivity.
Qed.

Lemma upd_self {A : Type} (h : heap A) k v : h k = v -> upd h k v = h.
Proof.
  intro H. apply functional_extensionality. intro k'. unfold upd.
  destruct (Nat.eqb k' k) eqn:E; [apply Nat.eqb_eq in E; subst; reflexivity | reflexivity].
Qed.

Lemma bind_ok {A B : Type} (m : M A) (f : A -> M B) s a s' :
  m s = Ok a s' -> bind m f s = f a s'.
Proof. unfold bind. intro H. rewrite H. reflexivity. Qed.

Lemma bind_thrown {A B : Type} (m : M A) (f : A -> M B) s e s' :
  m s = Thrown e s' -> bind m f s = Thrown e s'.
Proof. unfold bind. intro H. rewrite H. reflexivity. Qed.

Lemma bind_undef {A B : Type} (m : M A) (f : A -> M B) s :
  m s = Undef -> bind m f s = Undef.
Proof. unfold bind. intro H. rewrite H. reflexivity. Qed.

Lemma run_app this xs ys s :
  run this (xs ++ ys) s = bind (run this xs) (fun _ => run this ys) s.
Proof.
  revert s. induction xs as [|x xs IH]; intro s; simpl.
  - reflexivity.
  - unfold bind.
    destruct (step this x s) as [u s'|e s'|]; [rewrite IH; reflexivity | reflexivity | reflexivity].
Qed.

(** ** 32-bit arithmetic *)

Lemma int32_small z : -2^31 <= z < 2^31 -> int32 z = z.
Proof.
  intro H. unfold int32. rewrite Z.mod_small; lia.
Qed.

Lemma int32_add_int32 z d : int32 (int32 z + d) = int32 (z + d).
Proof.
  unfold int32.
  replace ((z + 2 ^ 31) mod 2 ^ 32 - 2 ^ 31 + d + 2 ^ 31)
    with ((z + 2 ^ 31) mod 2 ^ 32 + d) by lia.
  rewrite Zplus_mod_idemp_l.
  replace (z + 2 ^ 31 + d) with (z + d + 2 ^ 31) by lia.
  reflexivity.
Qed.

(** Unfolding the methods down to heap operations. *)
Ltac unfold_methods :=
  cbv beta iota zeta delta [Release Retain Destructor delete_this finally bind ret
    rd_lock rd_count wr_count get_obj put_obj emit Lock Unlock get_lock put_lock
    delete_lock free_obj EP_VERIFY throw undef set_count].

(** Rewrite the heap lookups with the hypotheses [_ = Some _] in the
    context and reduce, until nothing changes. *)
Ltac crunch :=
  repeat progress (
    rewrite ?upd_eq, ?upd_upd;
    repeat match goal with
           | H : ?x = Some _ |- context [?x] => rewrite H
           | H : ?x = true |- context [?x] => rewrite H
           | H : ?x = false |- context [?x] => rewrite H
           end;
    simpl).

Section OpSpecs.

Variables (s : St) (this l : nat) (o : SmartObject) (k : LockKind) (h : nat).
Hypothesis Ho : objs s this = Some o.
Hypothesis Hl : m_refCounterLock o = Some l.
Hypothesis Hb : locks s l = Some (mkBaseLock k h).

Lemma Retain_spec :
  Retain this s =
  Ok tt {| objs := upd (objs s) this (Some (set_count o (int32 (m_refCount o + 1))));
           locks := locks s; next_lock := next_lock s;
           trace := trace s ++ [EvLock l; EvCount (int32 (m_refCount o + 1)); EvUnlock l] |}.
Proof.
  unfold_methods. crunch.
  rewrite (upd_self (locks s) l _ Hb).
  rewrite <- !app_assoc. reflexivity.
Qed.

(** Release that neither reaches 0 nor goes negative. *)
Lemma Release_keep :
  int32 (m_refCount o - 1) <> 0 -> 0 <= int32 (m_refCount o - 1) ->
  Release this s =
  Ok tt {| objs := upd (objs s) this (Some (set_count o (int32 (m_refCount o - 1))));
           locks := locks s; next_lock := next_lock s;
           trace := trace s ++ [EvLock l; EvCount (int32 (m_refCount o - 1)); EvUnlock l] |}.
Proof.
  intros H0 H1.
  assert (E0 : Z.eqb (int32 (m_refCount o - 1)) 0 = false) by (apply Z.eqb_neq; exact H0).
  assert (E1 : Z.ltb (int32 (m_refCount o - 1)) 0 = false) by (apply Z.ltb_ge; exact H1).
  unfold_methods. crunch.
  rewrite (upd_self (locks s) l _ Hb).
  rewrite <- !app_assoc. reflexivity.
Qed.

(** Release that takes the count below 0: the EP_VERIFY raises before
    the [Unlock] at the end of the function. *)
Lemma Release_negative :
  int32 (m_refCount o - 1) < 0 ->
  Release this s =
  Thrown (domain_error (int32 (m_refCount o - 1)))
    {| objs := upd (objs s) this (Some (set_count o (int32 (m_refCount o - 1))));
       locks := upd (locks s) l (Some (mkBaseLock k (S h)));
       next_lock := next_lock s;
       trace := trace s ++ [EvLock l; EvCount (int32 (m_refCount o - 1))] |}.
Proof.
  intros H1.
  assert (E0 : Z.eqb (int32 (m_refCount o - 1)) 0 = false) by (apply Z.eqb_neq; lia).
  assert (E1 : Z.ltb (int32 (m_refCount o - 1)) 0 = true) by (apply Z.ltb_lt; exact H1).
  assert (E2 : Z.geb (int32 (m_refCount o - 1)) 0 = false)
    by (rewrite Z.geb_leb; apply Z.leb_gt; exact H1).
  unfold_methods. crunch.
  rewrite <- !app_assoc. reflexivity.
Qed.

(** Release at the zero crossing. *)
Lemma Release_zero :
  int32 (m_refCount o - 1) = 0 ->
  Release this s =
  Ok tt {| objs := upd (objs s) this None;
           locks := upd (locks s) l None;
           next_lock := next_lock s;
           trace := trace s ++ [EvLock l; EvCount 0; EvCount 1; EvUnlock l;
                                EvDestroy this; EvLock l; EvCount 0; EvUnlock l;
                                EvFreeLock l; EvFree this] |}.
Proof.
  intros H0.
  unfold_methods. crunch. rewrite H0. crunch.
  rewrite <- !app_assoc. reflexivity.
Qed.

(** EP_DELETE this by an owner, when the final decrement does not give 0:
    the EP_VERIFY raises before the [Unlock] and before the lock is freed;
    the object's memory is still released. *)
Lemma delete_nonzero :
  int32 (m_refCount o - 1) <> 0 ->
  delete_this this s =
  Thrown (runtime_error (int32 (m_refCount o - 1)))
    {| objs := upd (objs s) this None;
       locks := upd (locks s) l (Some (mkBaseLock k (S h)));
       next_lock := next_lock s;
       trace := trace s ++ [EvDestroy this; EvLock l; EvCount (int32 (m_refCount o - 1));
                            EvFree this] |}.
Proof.
  intros H0.
  assert (E0 : Z.eqb (int32 (m_refCount o - 1)) 0 = false) by (apply Z.eqb_neq; exact H0).
  unfold_methods. crunch.
  rewrite <- !app_assoc. reflexivity.
Qed.

(** EP_DELETE this when the final decrement gives 0. *)
Lemma delete_zero :
  int32 (m_refCount o - 1) = 0 ->
  delete_this this s =
  Ok tt {| objs := upd (objs s) this None;
           locks := upd (locks s) l None;
           next_lock := next_lock s;
           trace := trace s ++ [EvDestroy this; EvLock l; EvCount 0; EvUnlock l;
                                EvFreeLock l; EvFree this] |}.
Proof.
  intros H0.
  unfold_methods. crunch. rewrite H0. crunch.
  rewrite <- !app_assoc. reflexivity.
Qed.

End OpSpecs.

Lemma Release_freed s this : objs s this = None -> Release this s = Undef.
Proof. intro H. unfold_methods. rewrite H. reflexivity. Qed.

Lemma Retain_freed s this : objs s this = None -> Retain this s = Undef.
Proof. intro H. unfold_methods. rewrite H. reflexivity. Qed.

Lemma Release_null s this o :
  objs s this = Some o -> m_refCounterLock o = None -> Release this s = Undef.
Proof. intros H1 H2. unfold_methods. rewrite H1. simpl. rewrite H2. reflexivity. Qed.

Lemma Retain_null s this o :
  objs s this = Some o -> m_refCounterLock o = None -> Retain this s = Undef.
Proof. intros H1 H2. unfold_methods. rewrite H1. simpl. rewrite H2. reflexivity. Qed.

Lemma Release_lock_freed s this o l :
  objs s this = Some o -> m_refCounterLock o = Some l -> locks s l = None ->
  Release this s = Undef.
Proof. intros H1 H2 H3. unfold_methods. rewrite H1. simpl. rewrite H2. simpl. rewrite H3. reflexivity. Qed.

Lemma run_freed s this ops :
  objs s this = None -> ops <> [] -> run this ops s = Undef.
Proof.
  intros H Hne. destruct ops as [|[|] t]; [congruence| |]; simpl; apply bind_undef.
  - apply Retain_freed, H.
  - apply Release_freed, H.
Qed.

(** ** Constructors *)

Lemma lock_for_spec s p k :
  policy_kind p = Some k ->
  lock_for p s =
  Ok (Some (next_lock s))
    {| objs := objs s; locks := upd (locks s) (next_lock s) (Some (mkBaseLock k 0));
       next_lock := S (next_lock s); trace := trace s ++ [EvNewLock (next_lock s)] |}.
Proof. intro H. destruct p; simpl in H; inversion H; subst; reflexivity. Qed.

Lemma ctor_spec s this p k :
  policy_kind p = Some k ->
  SmartObject_ctor this p s =
  Ok tt {| objs := upd (objs s) this (Some (mkSmartObject 1 (Some (next_lock s)) p));
           locks := upd (locks s) (next_lock s) (Some (mkBaseLock k 0));
           next_lock := S (next_lock s); trace := trace s ++ [EvNewLock (next_lock s)] |}.
Proof.
  intro H. unfold SmartObject_ctor, bind at 1. simpl.
  unfold bind. rewrite lock_for_spec with (k := k) by exact H. simpl.
  unfold put_obj. simpl. rewrite upd_upd. reflexivity.
Qed.

Lemma ctor_other s this raw :
  SmartObject_ctor this (LOCK_POLICY_OTHER raw) s =
  Ok tt {| objs := upd (objs s) this (Some (mkSmartObject 1 None (LOCK_POLICY_OTHER raw)));
           locks := locks s; next_lock := next_lock s; trace := trace s |}.
Proof. unfold SmartObject_ctor, bind, lock_for, ret, put_obj. simpl. rewrite upd_upd. reflexivity. Qed.

Lemma copy_spec s this b ob k :
  objs s b = Some ob -> policy_kind (m_lockPolicy ob) = Some k ->
  SmartObject_copy this b s =
  Ok tt {| objs := upd (objs s) this
                    (Some (mkSmartObject 1 (Some (next_lock s)) (m_lockPolicy ob)));
           locks := upd (locks s) (next_lock s) (Some (mkBaseLock k 0));
           next_lock := S (next_lock s); trace := trace s ++ [EvNewLock (next_lock s)] |}.
Proof.
  intros Hb H. unfold SmartObject_copy, bind at 1, get_obj. rewrite Hb.
  unfold bind at 1. simpl.
  unfold bind. rewrite lock_for_spec with (k := k) by exact H. simpl.
  unfold put_obj. simpl. rewrite upd_upd. reflexivity.
Qed.

(** ** Iterated calls *)

Lemma int32_range z : int_range (int32 z).
Proof.
  unfold int_range, int32.
  pose proof (Z.mod_pos_bound (z + 2^31) (2^32) ltac:(lia)). lia.
Qed.

Lemma set_count_self o : set_count o (m_refCount o) = o.
Proof. destruct o; reflexivity. Qed.

Lemma set_count_twice o a c : set_count (set_count o a) c = set_count o c.
Proof. reflexivity. Qed.

Lemma destroys_app t u : destroys (t ++ u) = (destroys t + destroys u)%nat.
Proof. unfold destroys. rewrite filter_app, length_app. reflexivity. Qed.

Section Iterate.

Variables (this l : nat) (k : LockKind) (h : nat).

Lemma run_retains n : forall s o,
  objs s this = Some o -> m_refCounterLock o = Some l ->
  locks s l = Some (mkBaseLock k h) -> int_range (m_refCount o) ->
  exists t,
    run this (repeat ORetain n) s =
    Ok tt {| objs := upd (objs s) this
                       (Some (set_count o (int32 (m_refCount o + Z.of_nat n))));
             locks := locks s; next_lock := next_lock s; trace := trace s ++ t |}
    /\ destroys t = 0%nat.
Proof.
  induction n as [|n IH]; intros s o Ho Hl Hb Hr.
  - exists []. simpl. rewrite Z.add_0_r, int32_small by exact Hr.
    rewrite set_count_self, upd_self by exact Ho. rewrite app_nil_r.
    split; [destruct s; reflexivity | reflexivity].
  - simpl. rewrite (bind_ok _ _ _ _ _ (Retain_spec s this l o k h Ho Hl Hb)).
    cbv beta.
    match goal with |- exists t, run _ _ ?s1 = _ /\ _ =>
      destruct (IH s1 (set_count o (int32 (m_refCount o + 1))))
        as [t [Ht Hd]] end; simpl; try (rewrite upd_eq; reflexivity); try assumption.
    { apply int32_range. }
    exists ([EvLock l; EvCount (int32 (m_refCount o + 1)); EvUnlock l] ++ t).
    rewrite Ht. split; [|rewrite destroys_app, Hd; reflexivity].
    simpl. rewrite upd_upd, int32_add_int32, <- app_assoc.
    replace (m_refCount o + 1 + Z.of_nat n) with (m_refCount o + Z.of_nat (S n)) by lia.
    reflexivity.
Qed.

Lemma run_releases n : forall s o,
  objs s this = Some o -> m_refCounterLock o = Some l ->
  locks s l = Some (mkBaseLock k h) ->
  Z.of_nat n < m_refCount o < 2^31 ->
  exists t,
    run this (repeat ORelease n) s =
    Ok tt {| objs := upd (objs s) this (Some (set_count o (m_refCount o - Z.of_nat n)));
             locks := locks s; next_lock := next_lock s; trace := trace s ++ t |}
    /\ destroys t = 0%nat.
Proof.
  induction n as [|n IH]; intros s o Ho Hl Hb Hr.
  - exists []. simpl. rewrite Z.sub_0_r.
    rewrite set_count_self, upd_self by exact Ho. rewrite app_nil_r.
    split; [destruct s; reflexivity | reflexivity].
  - assert (Hc : int32 (m_refCount o - 1) = m_refCount o - 1)
      by (apply int32_small; lia).
    simpl. rewrite (bind_ok _ _ _ _ _ (Release_keep s this l o k h Ho Hl Hb
                                         ltac:(lia) ltac:(lia))).
    cbv beta.
    match goal with |- exists t, run _ _ ?s1 = _ /\ _ =>
      destruct (IH s1 (set_count o (int32 (m_refCount o - 1))))
        as [t [Ht Hd]] end; simpl; try (rewrite upd_eq; reflexivity); try assumption.
    { rewrite Hc. lia. }
    exists ([EvLock l; EvCount (int32 (m_refCount o - 1)); EvUnlock l] ++ t).
    rewrite Ht. split; [|rewrite destroys_app, Hd; reflexivity].
    simpl. rewrite upd_upd, Hc, <- app_assoc.
    replace (m_refCount o - 1 - Z.of_nat n) with (m_refCount o - Z.of_nat (S n)) by lia.
    reflexivity.
Qed.

Lemma run_invariant ops : forall s o,
  objs s this = Some o -> m_refCounterLock o = Some l ->
  locks s l = Some (mkBaseLock k h) -> 1 <= m_refCount o < 2^31 ->
  bounded (m_refCount o) ops ->
  forall s', run this ops s = Ok tt s' ->
  forall o', objs s' this = Some o' ->
  m_refCount o' = m_refCount o + net ops /\ 1 <= m_refCount o'.
Proof.
  induction ops as [|op t IH]; intros s o Ho Hl Hb Hr Hbd s' Hrun o' Ho'.
  - simpl in Hrun. inversion Hrun; subst. rewrite Ho in Ho'. inversion Ho'; subst.
    simpl. lia.
  - destruct op; simpl in Hrun, Hbd; cbn [net].
    + destruct Hbd as [Hc Hbd].
      rewrite (bind_ok _ _ _ _ _ (Retain_spec s this l o k h Ho Hl Hb)) in Hrun.
      assert (E : int32 (m_refCount o + 1) = m_refCount o + 1)
        by (apply int32_small; lia).
      rewrite E in Hrun.
      match type of Hrun with run _ _ ?s1 = _ =>
        pose proof (IH s1 (set_count o (m_refCount o + 1))) as Hi end.
      simpl in Hi. rewrite upd_eq in Hi.
      assert (Hr' : 1 <= m_refCount o + 1 < 2^31) by lia.
      destruct (Hi eq_refl Hl Hb Hr' Hbd s' Hrun o' Ho') as [H1 H2].
      split; lia.
    + destruct (Z.eq_dec (m_refCount o) 1) as [E1|E1].
      * assert (Z0 : int32 (m_refCount o - 1) = 0) by (rewrite E1; reflexivity).
        rewrite (bind_ok _ _ _ _ _ (Release_zero s this l o k h Ho Hl Hb Z0)) in Hrun.
        destruct t as [|op' t'].
        -- simpl in Hrun. inversion Hrun; subst. simpl in Ho'.
           rewrite upd_eq in Ho'. discriminate.
        -- rewrite run_freed in Hrun; [discriminate | simpl; apply upd_eq | discriminate].
      * assert (E : int32 (m_refCount o - 1) = m_refCount o - 1)
          by (apply int32_small; lia).
        rewrite (bind_ok _ _ _ _ _ (Release_keep s this l o k h Ho Hl Hb
                   ltac:(rewrite E; lia) ltac:(rewrite E; lia))) in Hrun.
        rewrite E in Hrun.
        match type of Hrun with run _ _ ?s1 = _ =>
          pose proof (IH s1 (set_count o (m_refCount o - 1))) as Hi end.
        simpl in Hi. rewrite upd_eq in Hi.
        assert (Hr' : 1 <= m_refCount o - 1 < 2^31) by lia.
      destruct (Hi eq_refl Hl Hb Hr' Hbd s' Hrun o' Ho') as [H1 H2].
        split; lia.
Qed.

End Iterate.

(** The object right after a constructor with a recognised policy. *)
Lemma after_ctor s this p k :
  policy_kind p = Some k ->
  exists s1,
    SmartObject_ctor this p s = Ok tt s1 /\
    objs s1 this = Some (mkSmartObject 1 (Some (next_lock s)) p) /\
    locks s1 (next_lock s) = Some (mkBaseLock k 0) /\
    next_lock s1 = S (next_lock s) /\
    trace s1 = trace s ++ [EvNewLock (next_lock s)].
Proof.
  intro H. eexists. split; [apply ctor_spec; exact H|].
  simpl. rewrite !upd_eq. repeat split.
Qed.

Lemma repeat_S_app {A : Type} (x : A) n : repeat x (S n) = repeat x n ++ [x].
Proof. induction n as [|n IH]; [reflexivity|]. simpl in *. rewrite <- IH. reflexivity. Qed.

(** Construction with a recognised policy followed by [N] Retain calls. *)
Lemma ctor_then_retains s this p kd N rest :
  policy_kind p = Some kd ->
  exists s2 t,
    (SmartObject_ctor this p ;; run this (repeat ORetain N ++ rest)) s = run this rest s2 /\
    objs s2 this = Some (mkSmartObject (int32 (1 + Z.of_nat N)) (Some (next_lock s)) p) /\
    locks s2 (next_lock s) = Some (mkBaseLock kd 0) /\
    trace s2 = trace s ++ [EvNewLock (next_lock s)] ++ t /\ destroys t = 0%nat.
Proof.
  intro Hp.
  destruct (after_ctor s this p kd Hp) as [s1 [Hc [Ho [Hb [_ Htr]]]]].
  unfold bind at 1. rewrite Hc. rewrite run_app.
  destruct (run_retains this (next_lock s) kd 0 N s1 _ Ho eq_refl Hb
              ltac:(unfold int_range; simpl; lia)) as [t [Ht Hd]].
  unfold bind at 1. rewrite Ht.
  eexists; exists t. split; [reflexivity|]. simpl. rewrite upd_eq.
  split; [reflexivity|]. split; [exact Hb|]. rewrite Htr, <- app_assoc.
  split; [reflexivity | exact Hd].
Qed.

(** A Release that raises was called on a live object, and what it
    raises is the domain error for a decremented count below 0. *)
Lemma Release_thrown_inv s this e s' :
  Release this s = Thrown e s' ->
  exists o, objs s this = Some o /\ int32 (m_refCount o - 1) < 0 /\
            e = domain_error (int32 (m_refCount o - 1)).
Proof.
  intro H.
  destruct (objs s this) as [o|] eqn:Ho; [|rewrite Release_freed in H by exact Ho; discriminate].
  destruct (m_refCounterLock o) as [l|] eqn:Hl;
    [|rewrite (Release_null s this o Ho Hl) in H; discriminate].
  destruct (locks s l) as [[k h]|] eqn:Hb;
    [|rewrite (Release_lock_freed s this o l Ho Hl Hb) in H; discriminate].
  destruct (Z.eq_dec (int32 (m_refCount o - 1)) 0) as [Z0|Z0].
  - rewrite (Release_zero s this l o k h Ho Hl Hb Z0) in H. discriminate.
  - destruct (Z_lt_le_dec (int32 (m_refCount o - 1)) 0) as [N|P].
    + rewrite (Release_negative s this l o k h Ho Hl Hb N) in H. injection H as <- _.
      exists o. split; [reflexivity|]. split; [exact N | reflexivity].
    + rewrite (Release_keep s this l o k h Ho Hl Hb Z0 P) in H. discriminate.
Qed.

(** Outcome of any sequence of Retain and Release calls on a live object
    whose lock is live and held [h] times. *)
Lemma run_outcome this l k h ops : forall s o,
  objs s this = Some o -> m_refCounterLock o = Some l ->
  locks s l = Some (mkBaseLock k h) ->
  match run this ops s with
  | Ok _ s' =>
      (exists o', objs s' this = Some o' /\ m_refCounterLock o' = Some l /\
                  m_lockPolicy o' = m_lockPolicy o /\ locks s' l = Some (mkBaseLock k h))
      \/ (objs s' this = None /\ locks s' l = None)
  | Thrown e s' =>
      exists c, e = domain_error c /\ c < 0 /\ objs s' this = Some (set_count o c) /\
                locks s' l = Some (mkBaseLock k (S h))
  | Undef => True
  end.
Proof.
  induction ops as [|op t IH]; intros s o Ho Hl Hb.
  - simpl. left. exists o. auto.
  - destruct op; simpl.
    + rewrite (bind_ok _ _ _ _ _ (Retain_spec s this l o k h Ho Hl Hb)).
      match goal with |- match run _ _ ?s1 with _ => _ end =>
             refine (IH s1 (set_count o (int32 (m_refCount o + 1))) _ Hl Hb) end.
           simpl. apply upd_eq.
    + destruct (Z.eq_dec (int32 (m_refCount o - 1)) 0) as [Z0|Z0].
      * rewrite (bind_ok _ _ _ _ _ (Release_zero s this l o k h Ho Hl Hb Z0)).
        destruct t as [|op' t'].
        -- simpl. right. split; apply upd_eq.
        -- rewrite run_freed; [exact I | simpl; apply upd_eq | discriminate].
      * destruct (Z_lt_le_dec (int32 (m_refCount o - 1)) 0) as [N|P].
        -- rewrite (bind_thrown _ _ _ _ _ (Release_negative s this l o k h Ho Hl Hb N)).
           exists (int32 (m_refCount o - 1)). split; [reflexivity|]. split; [exact N|].
           simpl. split; apply upd_eq.
        -- rewrite (bind_ok _ _ _ _ _ (Release_keep s this l o k h Ho Hl Hb Z0 P)).
           match goal with |- match run _ _ ?s1 with _ => _ end =>
             refine (IH s1 (set_count o (int32 (m_refCount o - 1))) _ Hl Hb) end.
           simpl. apply upd_eq.
Qed.

(** ** Claims *)

(** C1: on a live object whose count is 1 (and whose lock was built),
    Release decrements the count to 0, unlocks the counter lock, and only
    then enters the destructor, exactly once; the memory is gone
    afterwards, so a later Release has nothing to act on.  A Release on a
    count above 1 destroys nothing. *)
Theorem Release_zero_crossing_destroys_once (s : St) (this l : nat)
    (o : SmartObject) (k : LockKind) (h : nat)
    (Ho : objs s this = Some o) (Hl : m_refCounterLock o = Some l)
    (Hb : locks s l = Some (mkBaseLock k h)) :
  (m_refCount o = 1 ->
   exists s', Release this s = Ok tt s' /\
     trace s' = trace s ++ [EvLock l; EvCount 0; EvCount 1; EvUnlock l;
                            EvDestroy this; EvLock l; EvCount 0; EvUnlock l;
                            EvFreeLock l; EvFree this] /\
     destroys (trace s') = S (destroys (trace s)) /\
     objs s' this = None /\ locks s' l = None /\
     Release this s' = Undef) /\
  (1 < m_refCount o < 2^31 ->
   exists s', Release this s = Ok tt s' /\
     destroys (trace s') = destroys (trace s) /\
     count_of this s' = Some (m_refCount o - 1)).
Proof.
  split.
  - intro H1.
    assert (Z0 : int32 (m_refCount o - 1) = 0) by (rewrite H1; reflexivity).
    eexists. split; [apply (Release_zero s this l o k h Ho Hl Hb Z0)|].
    simpl. rewrite !upd_eq. split; [reflexivity|].
    split; [rewrite destroys_app, Nat.add_comm; reflexivity|].
    split; [reflexivity|]. split; [reflexivity|].
    apply Release_freed. simpl. apply upd_eq.
  - intro H1.
    assert (E : int32 (m_refCount o - 1) = m_refCount o - 1)
      by (apply int32_small; lia).
    eexists. split.
    + apply (Release_keep s this l o k h Ho Hl Hb); rewrite E; lia.
    + simpl. split; [rewrite destroys_app, Nat.add_comm; reflexivity|].
      unfold count_of. simpl. rewrite upd_eq, E. reflexivity.
Qed.

Lemma Release_zero_crossing_destroys_once_witness :
  (m_refCount (mkSmartObject 1 (Some 0%nat) LOCK_POLICY_CRITICALSECTION) = 1 ->
   exists s', Release 0%nat st_ctor_cs = Ok tt s' /\
     trace s' = trace st_ctor_cs ++
       [EvLock 0%nat; EvCount 0; EvCount 1; EvUnlock 0%nat; EvDestroy 0%nat; EvLock 0%nat;
        EvCount 0; EvUnlock 0%nat; EvFreeLock 0%nat; EvFree 0%nat] /\
     destroys (trace s') = S (destroys (trace st_ctor_cs)) /\
     objs s' 0%nat = None /\ locks s' 0%nat = None /\ Release 0%nat s' = Undef) /\
  (1 < m_refCount (mkSmartObject 1 (Some 0%nat) LOCK_POLICY_CRITICALSECTION) < 2^31 ->
   exists s', Release 0%nat st_ctor_cs = Ok tt s' /\
     destroys (trace s') = destroys (trace st_ctor_cs) /\
     count_of 0%nat s' = Some (m_refCount (mkSmartObject 1 (Some 0%nat)
                                         LOCK_POLICY_CRITICALSECTION) - 1)).
Proof.
  apply (Release_zero_crossing_destroys_once st_ctor_cs 0%nat 0%nat
           (mkSmartObject 1 (Some 0%nat) LOCK_POLICY_CRITICALSECTION)
           CriticalSectionEx 0%nat); reflexivity.
Defined.

(** C10: on the zero-crossing path Release writes the count back to 1
    before unlocking and deleting, so the destructor's own decrement
    reads exactly 0; a Release therefore never raises the destructor's
    "not 0" runtime error. *)
Theorem Release_dummy_increment_pairs_destructor (s : St) (this : nat) :
  (forall e s', Release this s <> Thrown (runtime_error e) s') /\
  (forall o l k h, objs s this = Some o -> m_refCounterLock o = Some l ->
     locks s l = Some (mkBaseLock k h) -> m_refCount o = 1 ->
     Release this s =
     Ok tt {| objs := upd (objs s) this None; locks := upd (locks s) l None;
              next_lock := next_lock s;
              trace := trace s ++ [EvLock l; EvCount 0; EvCount 1; EvUnlock l;
                                   EvDestroy this; EvLock l; EvCount 0; EvUnlock l;
                                   EvFreeLock l; EvFree this] |}).
Proof.
  split.
  - intros e s'.
    destruct (objs s this) as [o|] eqn:Ho; [|rewrite Release_freed by exact Ho; discriminate].
    destruct (m_refCounterLock o) as [l|] eqn:Hl;
      [|rewrite (Release_null s this o Ho Hl); discriminate].
    destruct (locks s l) as [[k h]|] eqn:Hb;
      [|rewrite (Release_lock_freed s this o l Ho Hl Hb); discriminate].
    destruct (Z.eq_dec (int32 (m_refCount o - 1)) 0) as [Z0|Z0].
    + rewrite (Release_zero s this l o k h Ho Hl Hb Z0). discriminate.
    + destruct (Z_lt_le_dec (int32 (m_refCount o - 1)) 0) as [N|N].
      * rewrite (Release_negative s this l o k h Ho Hl Hb N). congruence.
      * rewrite (Release_keep s this l o k h Ho Hl Hb Z0 N). discriminate.
  - intros o l k h Ho Hl Hb H1.
    apply (Release_zero s this l o k h Ho Hl Hb). rewrite H1. reflexivity.
Qed.

Lemma Release_dummy_increment_pairs_destructor_witness :
  Release 0%nat st_ctor_cs =
  Ok tt {| objs := upd (objs st_ctor_cs) 0%nat None; locks := upd (locks st_ctor_cs) 0%nat None;
           next_lock := next_lock st_ctor_cs;
           trace := trace st_ctor_cs ++ [EvLock 0%nat; EvCount 0; EvCount 1; EvUnlock 0%nat;
                                         EvDestroy 0%nat; EvLock 0%nat; EvCount 0; EvUnlock 0%nat;
                                         EvFreeLock 0%nat; EvFree 0%nat] |}.
Proof.
  apply (proj2 (Release_dummy_increment_pairs_destructor st_ctor_cs 0%nat)
           (mkSmartObject 1 (Some 0%nat) LOCK_POLICY_CRITICALSECTION)
           0%nat CriticalSectionEx 0%nat); reflexivity.
Defined.

(** C2: when Release takes the count below 0 it raises the domain error
    carrying the negative count and does not destroy the object; but the
    raise happens before the [Unlock] at the end of Release, so the error
    propagates with the counter lock still held (held once more than
    before the call). *)
Theorem Release_negative_count_leaves_lock_held (s : St) (this l : nat)
    (o : SmartObject) (k : LockKind) (h : nat)
    (Ho : objs s this = Some o) (Hl : m_refCounterLock o = Some l)
    (Hb : locks s l = Some (mkBaseLock k h))
    (Hneg : -2^31 < m_refCount o <= 0) :
  exists s', Release this s = Thrown (domain_error (m_refCount o - 1)) s' /\
    locks s' l = Some (mkBaseLock k (S h)) /\
    objs s' this = Some (set_count o (m_refCount o - 1)) /\
    trace s' = trace s ++ [EvLock l; EvCount (m_refCount o - 1)].
Proof.
  assert (E : int32 (m_refCount o - 1) = m_refCount o - 1)
    by (apply int32_small; lia).
  eexists. split.
  - rewrite <- E. apply (Release_negative s this l o k h Ho Hl Hb). lia.
  - simpl. rewrite !upd_eq, E. repeat split.
Qed.

Lemma Release_negative_count_leaves_lock_held_witness :
  exists s', Release 0%nat st_zero_cs = Thrown (domain_error (0 - 1)) s' /\
    locks s' 0%nat = Some (mkBaseLock CriticalSectionEx 1) /\
    objs s' 0%nat = Some (set_count (mkSmartObject 0 (Some 0%nat)
                                      LOCK_POLICY_CRITICALSECTION) (0 - 1)) /\
    trace s' = trace st_zero_cs ++ [EvLock 0%nat; EvCount (0 - 1)].
Proof.
  refine (Release_negative_count_leaves_lock_held st_zero_cs 0%nat 0%nat
            (mkSmartObject 0 (Some 0%nat) LOCK_POLICY_CRITICALSECTION)
            CriticalSectionEx 0%nat eq_refl eq_refl eq_refl _).
  simpl. lia.
Defined.

(** The count-0 live object is reached from construction: after
    2^32 - 1 Retain calls the 32-bit count has wrapped to 0, and the next
    Release raises with the lock left held. *)
Lemma negative_count_reachable (s : St) (this : nat) (p : LockPolicy) (kd : LockKind) :
  policy_kind p = Some kd ->
  exists s',
    (SmartObject_ctor this p ;; run this (repeat ORetain (2^32 - 1) ++ [ORelease])) s =
    Thrown (domain_error (-1)) s' /\
    locks s' (next_lock s) = Some (mkBaseLock kd 1) /\ count_of this s' = Some (-1).
Proof.
  intro Hp.
  assert (HN : Z.of_nat (2^32 - 1)%nat = 2^32 - 1).
  { rewrite Nat2Z.inj_sub, Nat2Z.inj_pow; [reflexivity|].
    apply (proj1 (Nat.neq_0_lt_0 _)), Nat.pow_nonzero. discriminate. }
  set (N := (2^32 - 1)%nat) in *. clearbody N.
  destruct (after_ctor s this p kd Hp) as [s1 [Hc [Ho [Hb [_ _]]]]].
  unfold bind at 1. rewrite Hc.
  rewrite run_app.
  destruct (run_retains this (next_lock s) kd 0 N s1 _ Ho eq_refl Hb
              ltac:(unfold int_range; simpl; lia)) as [t [Ht _]].
  unfold bind at 1. rewrite Ht. simpl m_refCount. rewrite HN.
  simpl run. unfold bind at 1.
  rewrite Release_negative with (l := next_lock s) (o := set_count
      (mkSmartObject 1 (Some (next_lock s)) p) (int32 (1 + (2^32 - 1))))
      (k := kd) (h := 0%nat); try reflexivity.
  - eexists. split; [reflexivity|]. unfold count_of. simpl. rewrite !upd_eq.
    split; reflexivity.
  - simpl. rewrite upd_eq. reflexivity.
  - simpl. exact Hb.
Qed.

(** C4: destroying an object directly while its count is above 1 makes
    the destructor raise the runtime error carrying the decremented
    count; the raise happens before the destructor's [Unlock] and before
    [EP_DELETE m_refCounterLock], so the lock stays held and is never
    freed; the object's memory is released all the same, so the held lock
    is leaked.  With count 1 the destructor decrements to 0, unlocks and
    frees the lock. *)
Theorem destructor_nonzero_count_keeps_lock (s : St) (this l : nat)
    (o : SmartObject) (k : LockKind) (h : nat)
    (Ho : objs s this = Some o) (Hl : m_refCounterLock o = Some l)
    (Hb : locks s l = Some (mkBaseLock k h)) :
  (m_refCount o = 1 ->
   exists s', delete_this this s = Ok tt s' /\ objs s' this = None /\ locks s' l = None /\
     trace s' = trace s ++ [EvDestroy this; EvLock l; EvCount 0; EvUnlock l;
                            EvFreeLock l; EvFree this]) /\
  (2 <= m_refCount o < 2^31 ->
   exists s', delete_this this s = Thrown (runtime_error (m_refCount o - 1)) s' /\
     locks s' l = Some (mkBaseLock k (S h)) /\
     objs s' this = None /\
     trace s' = trace s ++ [EvDestroy this; EvLock l; EvCount (m_refCount o - 1);
                            EvFree this]).
Proof.
  split.
  - intro H1.
    assert (Z0 : int32 (m_refCount o - 1) = 0) by (rewrite H1; reflexivity).
    eexists. split; [apply (delete_zero s this l o k h Ho Hl Hb Z0)|].
    simpl. rewrite !upd_eq. repeat split.
  - intro H2.
    assert (E : int32 (m_refCount o - 1) = m_refCount o - 1)
      by (apply int32_small; lia).
    eexists. split.
    + rewrite <- E. apply (delete_nonzero s this l o k h Ho Hl Hb). lia.
    + simpl. rewrite !upd_eq, E. repeat split.
Qed.

Lemma destructor_nonzero_count_keeps_lock_witness :
  (m_refCount (mkSmartObject 2 (Some 0%nat) LOCK_POLICY_CRITICALSECTION) = 1 ->
   exists s', delete_this 0%nat st_retained_cs = Ok tt s' /\ objs s' 0%nat = None /\
     locks s' 0%nat = None /\
     trace s' = trace st_retained_cs ++ [EvDestroy 0%nat; EvLock 0%nat; EvCount 0;
                                         EvUnlock 0%nat; EvFreeLock 0%nat; EvFree 0%nat]) /\
  (2 <= m_refCount (mkSmartObject 2 (Some 0%nat) LOCK_POLICY_CRITICALSECTION) < 2^31 ->
   exists s', delete_this 0%nat st_retained_cs = Thrown (runtime_error (2 - 1)) s' /\
     locks s' 0%nat = Some (mkBaseLock CriticalSectionEx 1) /\
     objs s' 0%nat = None /\
     trace s' = trace st_retained_cs ++ [EvDestroy 0%nat; EvLock 0%nat; EvCount (2 - 1);
                                         EvFree 0%nat]).
Proof.
  apply (destructor_nonzero_count_keeps_lock st_retained_cs 0%nat 0%nat
           (mkSmartObject 2 (Some 0%nat) LOCK_POLICY_CRITICALSECTION)
           CriticalSectionEx 0%nat); vm_compute; reflexivity.
Defined.

(** C3 (as stated): one Release more than the owning references does not
    raise [domain_error]: the previous Release already destroyed the
    object, and the extra call runs on freed memory. *)
Lemma extra_Release_is_not_signaled :
  scenario LOCK_POLICY_CRITICALSECTION [ORelease; ORelease] = Undef.
Proof. vm_compute. reflexivity. Qed.

(** C3 (amended): after construction and [n] Retain calls, the [n+1]-th
    Release destroys the object without error, and one Release more is
    undefined (it acts on the destroyed object); the negative-count
    error is raised by a Release exactly when it is called on a live
    object whose count [c] is in (-2^31, 0] (at [-2^31] the decrement
    wraps and nothing is raised), and it carries [c - 1]. *)
Theorem crossing_Release_destroys_then_undefined (s : St) (this : nat)
    (p : LockPolicy) (kd : LockKind) (n : nat)
    (Hp : policy_kind p = Some kd) (Hn : Z.of_nat n <= 2^31 - 2) :
  (exists s', (SmartObject_ctor this p ;; run this (repeat ORetain n ++ repeat ORelease (S n))) s
              = Ok tt s' /\ objs s' this = None) /\
  (SmartObject_ctor this p ;; run this (repeat ORetain n ++ repeat ORelease (S (S n)))) s
    = Undef /\
  (forall s0 o l k h, objs s0 this = Some o -> m_refCounterLock o = Some l ->
     locks s0 l = Some (mkBaseLock k h) -> -2^31 < m_refCount o <= 0 ->
     exists s1, Release this s0 = Thrown (domain_error (m_refCount o - 1)) s1) /\
  (forall s0 e s1, (forall o, objs s0 this = Some o -> int_range (m_refCount o)) ->
     Release this s0 = Thrown e s1 ->
     exists o, objs s0 this = Some o /\ -2^31 < m_refCount o <= 0 /\
               e = domain_error (m_refCount o - 1)).
Proof.
  assert (Hc : int32 (1 + Z.of_nat n) = 1 + Z.of_nat n) by (apply int32_small; lia).
  refine (conj _ (conj _ (conj _ _))).
  - destruct (ctor_then_retains s this p kd n (repeat ORelease (S n)) Hp)
      as [s2 [t [Hrun [Ho [Hb _]]]]].
    rewrite Hrun, repeat_S_app, run_app. rewrite Hc in Ho.
    destruct (run_releases this (next_lock s) kd 0 n s2
                (mkSmartObject (1 + Z.of_nat n) (Some (next_lock s)) p) Ho eq_refl Hb
                ltac:(cbn [m_refCount]; lia)) as [t' [Ht' _]].
    set (o2 := set_count (mkSmartObject (1 + Z.of_nat n) (Some (next_lock s)) p)
                 (m_refCount (mkSmartObject (1 + Z.of_nat n) (Some (next_lock s)) p)
                  - Z.of_nat n)) in Ht'.
    assert (Z0 : int32 (m_refCount o2 - 1) = 0).
    { unfold o2. cbn [m_refCount set_count].
      replace (1 + Z.of_nat n - Z.of_nat n - 1) with 0 by lia. reflexivity. }
    unfold bind at 1. rewrite Ht'. simpl run. unfold bind.
    rewrite (Release_zero _ this (next_lock s) o2 kd 0%nat);
      [ | cbn [objs]; apply upd_eq | reflexivity | exact Hb | exact Z0].
    eexists. split; [reflexivity|]. cbn [objs]. apply upd_eq.
  - destruct (ctor_then_retains s this p kd n (repeat ORelease (S (S n))) Hp)
      as [s2 [t [Hrun [Ho [Hb _]]]]].
    rewrite Hrun, repeat_S_app, repeat_S_app, <- app_assoc, run_app. rewrite Hc in Ho.
    destruct (run_releases this (next_lock s) kd 0 n s2
                (mkSmartObject (1 + Z.of_nat n) (Some (next_lock s)) p) Ho eq_refl Hb
                ltac:(cbn [m_refCount]; lia)) as [t' [Ht' _]].
    set (o2 := set_count (mkSmartObject (1 + Z.of_nat n) (Some (next_lock s)) p)
                 (m_refCount (mkSmartObject (1 + Z.of_nat n) (Some (next_lock s)) p)
                  - Z.of_nat n)) in Ht'.
    assert (Z0 : int32 (m_refCount o2 - 1) = 0).
    { unfold o2. cbn [m_refCount set_count].
      replace (1 + Z.of_nat n - Z.of_nat n - 1) with 0 by lia. reflexivity. }
    unfold bind at 1. rewrite Ht'. simpl run. unfold bind.
    rewrite (Release_zero _ this (next_lock s) o2 kd 0%nat);
      [ | cbn [objs]; apply upd_eq | reflexivity | exact Hb | exact Z0].
    rewrite Release_freed; [reflexivity|]. cbn [objs]. apply upd_eq.
  - intros s0 o l k h Ho Hl Hb Hneg.
    assert (E : int32 (m_refCount o - 1) = m_refCount o - 1)
      by (apply int32_small; lia).
    eexists. rewrite <- E. apply (Release_negative s0 this l o k h Ho Hl Hb). lia.
  - intros s0 e s1 Hr H.
    destruct (Release_thrown_inv s0 this e s1 H) as [o [Ho [N ->]]].
    specialize (Hr o Ho). unfold int_range in Hr.
    destruct (Z.eq_dec (m_refCount o) (-2^31)) as [Emin|Emin].
    + rewrite Emin in N. vm_compute in N. discriminate.
    + rewrite int32_small in N |- * by lia.
      exists o. split; [exact Ho|]. split; [lia | reflexivity].
Qed.

Lemma crossing_Release_destroys_then_undefined_witness :
  Z.of_nat 2 <= 2^31 - 2 /\
  (SmartObject_ctor 0%nat LOCK_POLICY_MUTEX ;;
   run 0%nat (repeat ORetain 2 ++ repeat ORelease 4)) empty_st = Undef.
Proof.
  split; [simpl; lia|].
  exact (proj1 (proj2 (crossing_Release_destroys_then_undefined empty_st 0%nat
     LOCK_POLICY_MUTEX Mutex 2 eq_refl ltac:(simpl; lia)))).
Defined.

Lemma nat_pow2_Z k : Z.of_nat (2 ^ k)%nat = 2 ^ Z.of_nat k.
Proof. rewrite Nat2Z.inj_pow. reflexivity. Qed.

(** C5 (as stated): with n = 2^31 the Retain calls wrap the 32-bit count
    to -2^31 + 1, and the first Release already raises. *)
Lemma retain_release_overflow_signals :
  exists s', scenario LOCK_POLICY_CRITICALSECTION
               (repeat ORetain (2^31) ++ repeat ORelease (2^31)) =
             Thrown (domain_error (-2^31)) s'.
Proof.
  unfold scenario.
  assert (HN : Z.of_nat (2^31)%nat = 2^31) by apply nat_pow2_Z.
  set (N := (2^31)%nat) in *. clearbody N.
  destruct (ctor_then_retains empty_st 0%nat LOCK_POLICY_CRITICALSECTION CriticalSectionEx
              N (repeat ORelease N) eq_refl) as [s2 [t [Hrun [Ho [Hb _]]]]].
  rewrite Hrun. rewrite HN in Ho.
  destruct N as [|N']; [simpl in HN; discriminate|].
  cbn [repeat run]. unfold bind at 1. cbn [step].
  rewrite (Release_negative s2 0%nat 0%nat
             (mkSmartObject (int32 (1 + 2^31)) (Some 0%nat) LOCK_POLICY_CRITICALSECTION)
             CriticalSectionEx 0%nat Ho eq_refl Hb); [|vm_compute; reflexivity].
  eexists. reflexivity.
Qed.

(** C5 (amended): for every n with 1 + n <= 2^31 - 1 (the count fits in
    an [int]), n Retain calls then n Release calls after construction
    with a recognised policy return normally, leave the object alive with
    count 1 and its own lock, and destroy nothing. *)
Theorem retain_release_balanced (s : St) (this : nat) (p : LockPolicy)
    (kd : LockKind) (n : nat)
    (Hp : policy_kind p = Some kd) (Hn : Z.of_nat n <= 2^31 - 2) :
  exists s' t,
    (SmartObject_ctor this p ;; run this (repeat ORetain n ++ repeat ORelease n)) s = Ok tt s' /\
    objs s' this = Some (mkSmartObject 1 (Some (next_lock s)) p) /\
    trace s' = trace s ++ [EvNewLock (next_lock s)] ++ t /\ destroys t = 0%nat.
Proof.
  assert (Hc : int32 (1 + Z.of_nat n) = 1 + Z.of_nat n) by (apply int32_small; lia).
  destruct (ctor_then_retains s this p kd n (repeat ORelease n) Hp)
    as [s2 [t [Hrun [Ho [Hb [Htr Hd]]]]]].
  rewrite Hc in Ho.
  destruct (run_releases this (next_lock s) kd 0 n s2
              (mkSmartObject (1 + Z.of_nat n) (Some (next_lock s)) p) Ho eq_refl Hb
              ltac:(cbn [m_refCount]; lia)) as [t' [Ht' Hd']].
  rewrite Hrun, Ht'. eexists; exists (t ++ t').
  split; [reflexivity|]. cbn [objs trace]. rewrite upd_eq.
  cbn [set_count m_refCount m_refCounterLock m_lockPolicy].
  replace (1 + Z.of_nat n - Z.of_nat n) with 1 by lia.
  split; [reflexivity|]. rewrite Htr, <- !app_assoc.
  split; [reflexivity|]. rewrite destroys_app, Hd, Hd'. reflexivity.
Qed.

Lemma retain_release_balanced_witness :
  exists s' t,
    (SmartObject_ctor 0%nat LOCK_POLICY_NONE ;;
     run 0%nat (repeat ORetain 3 ++ repeat ORelease 3)) empty_st = Ok tt s' /\
    objs s' 0%nat = Some (mkSmartObject 1 (Some (next_lock empty_st)) LOCK_POLICY_NONE) /\
    trace s' = trace empty_st ++ [EvNewLock (next_lock empty_st)] ++ t /\ destroys t = 0%nat.
Proof.
  apply (retain_release_balanced empty_st 0%nat LOCK_POLICY_NONE NoLock 3 eq_refl).
  simpl. lia.
Defined.

(** C9 (as stated): 2^31 - 1 Retain calls after construction leave the
    object alive with a negative count (the [int] has wrapped). *)
Lemma retains_wrap_negative_count :
  exists s', scenario LOCK_POLICY_CRITICALSECTION (repeat ORetain (2^31 - 1)) = Ok tt s' /\
             alive 0%nat s' = true /\ count_of 0%nat s' = Some (-2^31).
Proof.
  unfold scenario.
  assert (HN : Z.of_nat (2^31 - 1)%nat = 2^31 - 1).
  { rewrite Nat2Z.inj_sub, nat_pow2_Z; [reflexivity|].
    apply (proj1 (Nat.neq_0_lt_0 _)), Nat.pow_nonzero. discriminate. }
  set (N := (2^31 - 1)%nat) in *. clearbody N.
  rewrite <- (app_nil_r (repeat ORetain N)).
  destruct (ctor_then_retains empty_st 0%nat LOCK_POLICY_CRITICALSECTION CriticalSectionEx
              N [] eq_refl) as [s2 [t [Hrun [Ho _]]]].
  rewrite Hrun. rewrite HN in Ho. eexists. split; [reflexivity|].
  unfold alive, count_of. rewrite Ho. split; reflexivity.
Qed.

(** C9 (amended): along any sequence of Retain and Release calls after
    construction with a recognised policy in which the number of
    outstanding references never exceeds 2^31 - 1, whenever the object is
    alive its count equals 1 + #Retain - #Release and is non-negative. *)
Theorem count_tracks_outstanding_references (s : St) (this : nat) (p : LockPolicy)
    (kd : LockKind) (ops : list Op)
    (Hp : policy_kind p = Some kd) (Hbd : bounded 1 ops)
    (s' : St) (Hrun : (SmartObject_ctor this p ;; run this ops) s = Ok tt s')
    (o' : SmartObject) (Ho' : objs s' this = Some o') :
  m_refCount o' = 1 + net ops /\ 0 <= m_refCount o'.
Proof.
  destruct (after_ctor s this p kd Hp) as [s1 [Hc [Ho [Hb _]]]].
  unfold bind in Hrun. rewrite Hc in Hrun.
  destruct (run_invariant this (next_lock s) kd 0 ops s1 _ Ho eq_refl Hb
              ltac:(cbn [m_refCount]; lia) Hbd s' Hrun o' Ho') as [H1 H2].
  split; [exact H1 | lia].
Qed.

Lemma count_tracks_outstanding_references_witness :
  m_refCount (mkSmartObject 2 (Some 0%nat) LOCK_POLICY_MUTEX) = 1 + net [ORetain; ORetain; ORelease]
  /\ 0 <= m_refCount (mkSmartObject 2 (Some 0%nat) LOCK_POLICY_MUTEX).
Proof.
  refine (count_tracks_outstanding_references empty_st 0%nat LOCK_POLICY_MUTEX Mutex
           [ORetain; ORetain; ORelease] eq_refl _ st_ops_example _ _ _).
  - simpl. lia.
  - vm_compute. reflexivity.
  - vm_compute. reflexivity.
Defined.

(** C6: the copy constructor reads only the source's policy: the copy
    gets count 1 and a lock freshly allocated for that policy (an address
    not in use before, hence not the source's lock), and the source
    object and its lock are untouched. *)
Theorem copy_ctor_fresh_independent (s : St) (this b lb : nat) (ob : SmartObject)
    (kd : LockKind)
    (Hb : objs s b = Some ob) (Hp : policy_kind (m_lockPolicy ob) = Some kd)
    (Hne : this <> b)
    (Hwf : forall l, (next_lock s <= l)%nat -> locks s l = None)
    (Hlb : m_refCounterLock ob = Some lb) (Hlive : locks s lb <> None) :
  exists s', SmartObject_copy this b s = Ok tt s' /\
    objs s' this = Some (mkSmartObject 1 (Some (next_lock s)) (m_lockPolicy ob)) /\
    locks s' (next_lock s) = Some (mkBaseLock kd 0) /\
    locks s (next_lock s) = None /\ next_lock s <> lb /\
    objs s' b = Some ob /\ locks s' lb = locks s lb.
Proof.
  assert (Hfresh : locks s (next_lock s) = None) by (apply Hwf; lia).
  assert (Hdiff : next_lock s <> lb) by (intro E; apply Hlive; rewrite <- E; exact Hfresh).
  eexists. split; [apply (copy_spec s this b ob kd Hb Hp)|].
  cbn [objs locks]. rewrite !upd_eq.
  rewrite (upd_neq (objs s) this b _ (not_eq_sym Hne)).
  rewrite (upd_neq (locks s) (next_lock s) lb _ (not_eq_sym Hdiff)).
  repeat split; assumption.
Qed.

Lemma copy_ctor_fresh_independent_witness :
  exists s', SmartObject_copy 1%nat 0%nat st_ctor_cs = Ok tt s' /\
    objs s' 1%nat = Some (mkSmartObject 1 (Some (next_lock st_ctor_cs))
                            (m_lockPolicy (mkSmartObject 1 (Some 0%nat) LOCK_POLICY_CRITICALSECTION))) /\
    locks s' (next_lock st_ctor_cs) = Some (mkBaseLock CriticalSectionEx 0) /\
    locks st_ctor_cs (next_lock st_ctor_cs) = None /\ next_lock st_ctor_cs <> 0%nat /\
    objs s' 0%nat = Some (mkSmartObject 1 (Some 0%nat) LOCK_POLICY_CRITICALSECTION) /\
    locks s' 0%nat = locks st_ctor_cs 0%nat.
Proof.
  apply (copy_ctor_fresh_independent st_ctor_cs 1%nat 0%nat 0%nat
           (mkSmartObject 1 (Some 0%nat) LOCK_POLICY_CRITICALSECTION) CriticalSectionEx
           eq_refl eq_refl ltac:(discriminate)).
  - intros l H. destruct l as [|l]; [vm_compute in H; lia | vm_compute; reflexivity].
  - reflexivity.
  - vm_compute. discriminate.
Defined.

(** C7: assignment returns [this] and leaves the whole state (counts,
    locks and policies of both operands) as it was. *)
Theorem assign_returns_self_unchanged (s : St) (this b : nat) (o ob : SmartObject)
    (Ho : objs s this = Some o) (Hb : objs s b = Some ob) :
  operator_assign this b s = Ok this s.
Proof.
  unfold operator_assign, bind, get_obj, ret. rewrite Ho, Hb. reflexivity.
Qed.

Lemma assign_returns_self_unchanged_witness :
  operator_assign 0%nat 1%nat st_O_P = Ok 0%nat st_O_P /\
  count_of 0%nat st_O_P = Some 1 /\ count_of 1%nat st_O_P = Some 3.
Proof.
  split; [|split; vm_compute; reflexivity].
  apply (assign_returns_self_unchanged st_O_P 0%nat 1%nat
           (mkSmartObject 1 (Some 0%nat) LOCK_POLICY_CRITICALSECTION)
           (mkSmartObject 3 (Some 1%nat) LOCK_POLICY_CRITICALSECTION));
    vm_compute; reflexivity.
Defined.

(** C8 (as stated): an unrecognised policy value does not fail at
    construction: the constructor returns normally with a null lock. *)
Lemma unknown_policy_constructs_silently :
  exists s', SmartObject_ctor 0 (LOCK_POLICY_OTHER 7) empty_st = Ok tt s' /\
    objs s' 0%nat = Some (mkSmartObject 1 None (LOCK_POLICY_OTHER 7)).
Proof. eexists. split; [reflexivity | vm_compute; reflexivity]. Qed.

(** C8 (amended): for each of the three policies the constructor sets the
    count to 1, stores the policy and allocates the matching lock
    (critical section, mutex or no-op), with no error path, and a later
    Retain keeps the policy; for an unrecognised policy value it also
    returns normally, storing the policy and a null lock, and the first
    Retain or Release is then undefined (a call through the null lock).
    For every policy the stored policy is never changed afterwards: after
    any Retain/Release sequence that returns or raises, a live object
    still holds the policy it was constructed with. *)
Theorem ctor_builds_policy_lock (s : St) (this : nat) (p : LockPolicy) :
  (forall kd, policy_kind p = Some kd ->
     exists s', SmartObject_ctor this p s = Ok tt s' /\
       objs s' this = Some (mkSmartObject 1 (Some (next_lock s)) p) /\
       locks s' (next_lock s) = Some (mkBaseLock kd 0) /\
       exists s'', Retain this s' = Ok tt s'' /\
         option_map m_lockPolicy (objs s'' this) = Some p) /\
  (forall raw, p = LOCK_POLICY_OTHER raw ->
     exists s', SmartObject_ctor this p s = Ok tt s' /\
       objs s' this = Some (mkSmartObject 1 None p) /\ locks s' = locks s /\
       Retain this s' = Undef /\ Release this s' = Undef) /\
  (forall ops s', res_state ((SmartObject_ctor this p ;; run this ops) s) = Some s' ->
     forall o', objs s' this = Some o' -> m_lockPolicy o' = p).
Proof.
  refine (conj _ (conj _ _)).
  - intros kd Hp.
    destruct (after_ctor s this p kd Hp) as [s1 [Hc [Ho [Hb _]]]].
    exists s1. split; [exact Hc|]. split; [exact Ho|]. split; [exact Hb|].
    eexists. split; [apply (Retain_spec s1 this (next_lock s) _ kd 0 Ho eq_refl Hb)|].
    cbn [objs]. rewrite upd_eq. reflexivity.
  - intros raw ->. eexists. split; [apply ctor_other|].
    cbn [objs locks]. rewrite upd_eq. split; [reflexivity|]. split; [reflexivity|].
    split; [apply (Retain_null _ this (mkSmartObject 1 None (LOCK_POLICY_OTHER raw)))
           | apply (Release_null _ this (mkSmartObject 1 None (LOCK_POLICY_OTHER raw)))];
      try reflexivity; cbn [objs]; apply upd_eq.
  - intros ops s' H o' Ho'. destruct (policy_kind p) as [kd|] eqn:Hp.
    + destruct (after_ctor s this p kd Hp) as [s1 [Hc [Ho [Hb _]]]].
      rewrite (bind_ok _ _ _ _ _ Hc) in H.
      pose proof (run_outcome this (next_lock s) kd 0 ops s1 _ Ho eq_refl Hb) as R.
      destruct (run this ops s1) as [u s2|e s2|]; simpl in H; try discriminate;
        injection H as E; subst s2.
      * destruct R as [[o2 [E [_ [Ep _]]]] | [E _]]; rewrite E in Ho'; [|discriminate].
        injection Ho' as <-. exact Ep.
      * destruct R as [c [_ [_ [E _]]]]. rewrite E in Ho'. injection Ho' as <-. reflexivity.
    + destruct p; try discriminate. rewrite (bind_ok _ _ _ _ _ (ctor_other s this raw)) in H.
      destruct ops as [|op t].
      * simpl in H. injection H as <-. cbn [objs] in Ho'. rewrite upd_eq in Ho'.
        injection Ho' as <-. reflexivity.
      * cbn [run] in H. rewrite bind_undef in H; [discriminate|].
        destruct op; simpl;
          [apply (Retain_null _ this (mkSmartObject 1 None (LOCK_POLICY_OTHER raw)))
          |apply (Release_null _ this (mkSmartObject 1 None (LOCK_POLICY_OTHER raw)))];
          try reflexivity; cbn [objs]; apply upd_eq.
Qed.

Lemma ctor_builds_policy_lock_witness :
  (exists s', SmartObject_ctor 0%nat LOCK_POLICY_MUTEX empty_st = Ok tt s' /\
    objs s' 0%nat = Some (mkSmartObject 1 (Some (next_lock empty_st)) LOCK_POLICY_MUTEX) /\
    locks s' (next_lock empty_st) = Some (mkBaseLock Mutex 0) /\
    exists s'', Retain 0%nat s' = Ok tt s'' /\
      option_map m_lockPolicy (objs s'' 0%nat) = Some LOCK_POLICY_MUTEX) /\
  (forall o', objs st_ops_example 0%nat = Some o' -> m_lockPolicy o' = LOCK_POLICY_MUTEX).
Proof.
  split.
  - exact (proj1 (ctor_builds_policy_lock empty_st 0%nat LOCK_POLICY_MUTEX) Mutex eq_refl).
  - apply (proj2 (proj2 (ctor_builds_policy_lock empty_st 0%nat LOCK_POLICY_MUTEX))
             [ORetain; ORetain; ORelease] st_ops_example).
    vm_compute. reflexivity.
Defined.

(** ** Further properties of the class *)

Lemma Retain_lock_freed s this o l :
  objs s this = Some o -> m_refCounterLock o = Some l -> locks s l = None ->
  Retain this s = Undef.
Proof. intros H1 H2 H3. unfold_methods. rewrite H1. simpl. rewrite H2. simpl. rewrite H3. reflexivity. Qed.

Lemma delete_freed s this : objs s this = None -> delete_this this s = Undef.
Proof. intro H. unfold_methods. rewrite H. reflexivity. Qed.

Lemma delete_null s this o :
  objs s this = Some o -> m_refCounterLock o = None -> delete_this this s = Undef.
Proof. intros H1 H2. unfold_methods. rewrite H1. simpl. rewrite H1. simpl. rewrite H2. reflexivity. Qed.

Lemma delete_lock_freed s this o l :
  objs s this = Some o -> m_refCounterLock o = Some l -> locks s l = None ->
  delete_this this s = Undef.
Proof.
  intros H1 H2 H3. unfold_methods. rewrite H1. simpl. rewrite H1. simpl. rewrite H2.
  simpl. rewrite H3. reflexivity.
Qed.

Lemma copy_freed s this b : objs s b = None -> SmartObject_copy this b s = Undef.
Proof. intro H. unfold SmartObject_copy, bind, get_obj. rewrite H. reflexivity. Qed.

Lemma copy_other s this b ob raw :
  objs s b = Some ob -> m_lockPolicy ob = LOCK_POLICY_OTHER raw ->
  SmartObject_copy this b s =
  Ok tt {| objs := upd (objs s) this (Some (mkSmartObject 1 None (LOCK_POLICY_OTHER raw)));
           locks := locks s; next_lock := next_lock s; trace := trace s |}.
Proof.
  intros Hb Hp. unfold SmartObject_copy, bind, get_obj. rewrite Hb. cbv zeta.
  rewrite Hp. unfold lock_for, ret, put_obj. simpl. rewrite upd_upd. reflexivity.
Qed.

(** The footprint of Retain, Release and [EP_DELETE this]. *)
Lemma Retain_frame s this s' : res_state (Retain this s) = Some s' -> frame_ok this s s'.
Proof.
  intro H.
  destruct (objs s this) as [o|] eqn:Ho; [|rewrite Retain_freed in H by exact Ho; discriminate].
  destruct (m_refCounterLock o) as [l|] eqn:Hl;
    [|rewrite (Retain_null s this o Ho Hl) in H; discriminate].
  destruct (locks s l) as [[k h]|] eqn:Hb;
    [|rewrite (Retain_lock_freed s this o l Ho Hl Hb) in H; discriminate].
  rewrite (Retain_spec s this l o k h Ho Hl Hb) in H. simpl in H. injection H as <-.
  split; [reflexivity|]. split; [intros x Hx; apply upd_neq, Hx|].
  exists o, l. split; [exact Ho|]. split; [exact Hl|]. split; [intros; reflexivity|].
  right. eexists. apply upd_eq.
Qed.

Lemma Release_frame s this s' : res_state (Release this s) = Some s' -> frame_ok this s s'.
Proof.
  intro H.
  destruct (objs s this) as [o|] eqn:Ho; [|rewrite Release_freed in H by exact Ho; discriminate].
  destruct (m_refCounterLock o) as [l|] eqn:Hl;
    [|rewrite (Release_null s this o Ho Hl) in H; discriminate].
  destruct (locks s l) as [[k h]|] eqn:Hb;
    [|rewrite (Release_lock_freed s this o l Ho Hl Hb) in H; discriminate].
  destruct (Z.eq_dec (int32 (m_refCount o - 1)) 0) as [Z0|Z0].
  - rewrite (Release_zero s this l o k h Ho Hl Hb Z0) in H. simpl in H. injection H as <-.
    split; [reflexivity|]. split; [intros x Hx; apply upd_neq, Hx|].
    exists o, l. split; [exact Ho|]. split; [exact Hl|].
    split; [intros l' Hl'; apply upd_neq, Hl'|]. left. apply upd_eq.
  - destruct (Z_lt_le_dec (int32 (m_refCount o - 1)) 0) as [N|P].
    + rewrite (Release_negative s this l o k h Ho Hl Hb N) in H. simpl in H. injection H as <-.
      split; [reflexivity|]. split; [intros x Hx; apply upd_neq, Hx|].
      exists o, l. split; [exact Ho|]. split; [exact Hl|].
      split; [intros l' Hl'; apply upd_neq, Hl'|]. right. eexists. apply upd_eq.
    + rewrite (Release_keep s this l o k h Ho Hl Hb Z0 P) in H. simpl in H. injection H as <-.
      split; [reflexivity|]. split; [intros x Hx; apply upd_neq, Hx|].
      exists o, l. split; [exact Ho|]. split; [exact Hl|]. split; [intros; reflexivity|].
      right. eexists. apply upd_eq.
Qed.

Lemma delete_frame s this s' : res_state (delete_this this s) = Some s' -> frame_ok this s s'.
Proof.
  intro H.
  destruct (objs s this) as [o|] eqn:Ho; [|rewrite delete_freed in H by exact Ho; discriminate].
  destruct (m_refCounterLock o) as [l|] eqn:Hl;
    [|rewrite (delete_null s this o Ho Hl) in H; discriminate].
  destruct (locks s l) as [[k h]|] eqn:Hb;
    [|rewrite (delete_lock_freed s this o l Ho Hl Hb) in H; discriminate].
  destruct (Z.eq_dec (int32 (m_refCount o - 1)) 0) as [Z0|Z0].
  - rewrite (delete_zero s this l o k h Ho Hl Hb Z0) in H. simpl in H. injection H as <-.
    split; [reflexivity|]. split; [intros x Hx; apply upd_neq, Hx|].
    exists o, l. split; [exact Ho|]. split; [exact Hl|].
    split; [intros l' Hl'; apply upd_neq, Hl'|]. left. apply upd_eq.
  - rewrite (delete_nonzero s this l o k h Ho Hl Hb Z0) in H. simpl in H. injection H as <-.
    split; [reflexivity|]. split; [intros x Hx; apply upd_neq, Hx|].
    exists o, l. split; [exact Ho|]. split; [exact Hl|].
    split; [intros l' Hl'; apply upd_neq, Hl'|]. left. apply upd_eq.
Qed.

(** A call with that footprint keeps [owned_locks_ok]. *)
Lemma frame_preserves this s s' : frame_ok this s s' -> owned_locks_ok s -> owned_locks_ok s'.
Proof.
  intros [Hn [Hx [o [l [Ho [Hl [_ Hthis]]]]]]] [Hf Hu].
  assert (back : forall x o', objs s' x = Some o' ->
            exists o0, objs s x = Some o0 /\ m_refCounterLock o' = m_refCounterLock o0).
  { intros x o' Ho'. destruct (Nat.eq_dec x this) as [->|Hne].
    - destruct Hthis as [E|[c E]]; rewrite E in Ho'; [discriminate|].
      injection Ho' as <-. exists o. split; [exact Ho | reflexivity].
    - rewrite Hx in Ho' by exact Hne. exists o'. split; [exact Ho' | reflexivity]. }
  split.
  - intros x o' l' Ho' Hl'. rewrite Hn. destruct (back x o' Ho') as [o0 [A B]].
    apply (Hf x o0 l' A). congruence.
  - intros x y ox oy l' Hxy Hox Hoy Hlx Hly.
    destruct (back x ox Hox) as [ox0 [A B]]. destruct (back y oy Hoy) as [oy0 [C D]].
    apply (Hu x y ox0 oy0 l' Hxy A C); congruence.
Qed.

(** Installing a freshly constructed object keeps [owned_locks_ok] when
    its lock pointer, if any, was allocated by the constructor itself. *)
Lemma install_preserves s s' this o' :
  owned_locks_ok s -> objs s' = upd (objs s) this (Some o') ->
  (next_lock s <= next_lock s')%nat ->
  (forall l, m_refCounterLock o' = Some l -> next_lock s <= l < next_lock s')%nat ->
  owned_locks_ok s'.
Proof.
  intros [Hf Hu] Hobj Hn Hnew. split.
  - intros x o l Ho Hl. rewrite Hobj in Ho. destruct (Nat.eq_dec x this) as [->|Hne].
    + rewrite upd_eq in Ho. injection Ho as <-. specialize (Hnew l Hl). lia.
    + rewrite upd_neq in Ho by exact Hne. specialize (Hf x o l Ho Hl). lia.
  - intros x y ox oy l Hxy Hox Hoy Hlx Hly. rewrite Hobj in Hox, Hoy.
    destruct (Nat.eq_dec x this) as [->|Hx]; destruct (Nat.eq_dec y this) as [->|Hy].
    + exact (Hxy eq_refl).
    + rewrite upd_eq in Hox. injection Hox as <-. rewrite upd_neq in Hoy by exact Hy.
      specialize (Hnew l Hlx). specialize (Hf y oy l Hoy Hly). lia.
    + rewrite upd_eq in Hoy. injection Hoy as <-. rewrite upd_neq in Hox by exact Hx.
      specialize (Hnew l Hly). specialize (Hf x ox l Hox Hlx). lia.
    + rewrite upd_neq in Hox by exact Hx. rewrite upd_neq in Hoy by exact Hy.
      exact (Hu x y ox oy l Hxy Hox Hoy Hlx Hly).
Qed.

Lemma ctor_preserves s this p s' :
  res_state (SmartObject_ctor this p s) = Some s' -> owned_locks_ok s -> owned_locks_ok s'.
Proof.
  intros H Hinv. destruct (policy_kind p) as [k|] eqn:Hp.
  - rewrite (ctor_spec s this p k Hp) in H. injection H as <-.
    apply (install_preserves s _ this (mkSmartObject 1 (Some (next_lock s)) p) Hinv);
      simpl; [reflexivity | lia | intros l E; injection E as <-; lia].
  - destruct p; try discriminate. rewrite ctor_other in H. injection H as <-.
    apply (install_preserves s _ this (mkSmartObject 1 None (LOCK_POLICY_OTHER raw)) Hinv);
      simpl; [reflexivity | lia | discriminate].
Qed.

Lemma copy_preserves s this b s' :
  res_state (SmartObject_copy this b s) = Some s' -> owned_locks_ok s -> owned_locks_ok s'.
Proof.
  intros H Hinv. destruct (objs s b) as [ob|] eqn:Hb; [|rewrite copy_freed in H by exact Hb; discriminate].
  destruct (policy_kind (m_lockPolicy ob)) as [k|] eqn:Hp.
  - rewrite (copy_spec s this b ob k Hb Hp) in H. injection H as <-.
    apply (install_preserves s _ this
             (mkSmartObject 1 (Some (next_lock s)) (m_lockPolicy ob)) Hinv);
      simpl; [reflexivity | lia | intros l E; injection E as <-; lia].
  - destruct (m_lockPolicy ob) eqn:E; try discriminate.
    rewrite (copy_other s this b ob raw Hb E) in H. injection H as <-.
    apply (install_preserves s _ this (mkSmartObject 1 None (LOCK_POLICY_OTHER raw)) Hinv);
      simpl; [reflexivity | lia | discriminate].
Qed.



Lemma int32_pred_zero c : int_range c -> int32 (c - 1) = 0 -> c = 1.
Proof.
  unfold int_range. intros Hr H. destruct (Z.eq_dec c (-2^31)) as [->|Hne].
  - vm_compute in H. discriminate.
  - rewrite int32_small in H by lia. lia.
Qed.

(** Retain has no error path: on a live object with a live lock, held
    any number of times, it returns normally, writes [int32 (count + 1)],
    leaves the lock heap as it was (the [LockObj] unlocks what it locked)
    and touches no other object. *)
Theorem Retain_returns_lock_balanced (s : St) (this l : nat) (o : SmartObject)
    (k : LockKind) (h : nat)
    (Ho : objs s this = Some o) (Hl : m_refCounterLock o = Some l)
    (Hb : locks s l = Some (mkBaseLock k h)) :
  exists s', Retain this s = Ok tt s' /\
    objs s' this = Some (set_count o (int32 (m_refCount o + 1))) /\
    locks s' = locks s /\ next_lock s' = next_lock s /\
    (forall x, x <> this -> objs s' x = objs s x).
Proof.
  eexists. split; [exact (Retain_spec s this l o k h Ho Hl Hb)|].
  simpl. split; [apply upd_eq|]. split; [reflexivity|]. split; [reflexivity|].
  intros x Hx. apply upd_neq, Hx.
Qed.

Lemma Retain_returns_lock_balanced_witness :
  exists s', Retain 0%nat st_ctor_cs = Ok tt s' /\
    objs s' 0%nat = Some (set_count (mkSmartObject 1 (Some 0%nat) LOCK_POLICY_CRITICALSECTION)
                            (int32 (1 + 1))) /\
    locks s' = locks st_ctor_cs /\ next_lock s' = next_lock st_ctor_cs /\
    (forall x, x <> 0%nat -> objs s' x = objs st_ctor_cs x).
Proof.
  apply (Retain_returns_lock_balanced st_ctor_cs 0%nat 0%nat
           (mkSmartObject 1 (Some 0%nat) LOCK_POLICY_CRITICALSECTION) CriticalSectionEx 0%nat);
    vm_compute; reflexivity.
Defined.

(** A Release that leaves references: on a live object with count [c],
    [2 <= c < 2^31], Release returns normally, the object stays alive
    with count [c - 1] and the same lock and policy, the lock heap is as
    before and nothing is destroyed. *)
Theorem Release_nonfinal_keeps_object (s : St) (this l : nat) (o : SmartObject)
    (k : LockKind) (h : nat)
    (Ho : objs s this = Some o) (Hl : m_refCounterLock o = Some l)
    (Hb : locks s l = Some (mkBaseLock k h)) (Hc : 2 <= m_refCount o < 2^31) :
  exists s', Release this s = Ok tt s' /\
    objs s' this = Some (set_count o (m_refCount o - 1)) /\
    locks s' = locks s /\ next_lock s' = next_lock s /\
    (forall x, x <> this -> objs s' x = objs s x) /\
    trace s' = trace s ++ [EvLock l; EvCount (m_refCount o - 1); EvUnlock l].
Proof.
  assert (E : int32 (m_refCount o - 1) = m_refCount o - 1) by (apply int32_small; lia).
  eexists. split.
  - apply (Release_keep s this l o k h Ho Hl Hb); rewrite E; lia.
  - simpl. rewrite E. split; [apply upd_eq|]. split; [reflexivity|].
    split; [reflexivity|]. split; [intros x Hx; apply upd_neq, Hx | reflexivity].
Qed.

Lemma Release_nonfinal_keeps_object_witness :
  exists s', Release 0%nat st_retained_cs = Ok tt s' /\
    objs s' 0%nat = Some (set_count (mkSmartObject 2 (Some 0%nat) LOCK_POLICY_CRITICALSECTION)
                            (2 - 1)) /\
    locks s' = locks st_retained_cs /\ next_lock s' = next_lock st_retained_cs /\
    (forall x, x <> 0%nat -> objs s' x = objs st_retained_cs x) /\
    trace s' = trace st_retained_cs ++ [EvLock 0%nat; EvCount (2 - 1); EvUnlock 0%nat].
Proof.
  apply (Release_nonfinal_keeps_object st_retained_cs 0%nat 0%nat
           (mkSmartObject 2 (Some 0%nat) LOCK_POLICY_CRITICALSECTION) CriticalSectionEx 0%nat);
    try (vm_compute; reflexivity). simpl. lia.
Defined.

(** Retain then Release on an object whose count [c] satisfies
    [1 <= c <= 2^31 - 2] return normally and restore the object heap, the
    lock heap and the allocator exactly; only the trace grows. *)
Theorem Retain_Release_roundtrip (s : St) (this l : nat) (o : SmartObject)
    (k : LockKind) (h : nat)
    (Ho : objs s this = Some o) (Hl : m_refCounterLock o = Some l)
    (Hb : locks s l = Some (mkBaseLock k h)) (Hc : 1 <= m_refCount o <= 2^31 - 2) :
  exists s', (Retain this ;; Release this) s = Ok tt s' /\
    objs s' = objs s /\ locks s' = locks s /\ next_lock s' = next_lock s.
Proof.
  assert (E1 : int32 (m_refCount o + 1) = m_refCount o + 1) by (apply int32_small; lia).
  assert (E2 : int32 (m_refCount o + 1 - 1) = m_refCount o)
    by (replace (m_refCount o + 1 - 1) with (m_refCount o) by lia; apply int32_small; lia).
  rewrite (bind_ok _ _ _ _ _ (Retain_spec s this l o k h Ho Hl Hb)).
  set (o1 := set_count o (int32 (m_refCount o + 1))).
  eexists. split.
  - apply (Release_keep _ this l o1 k h); simpl; try apply upd_eq; try assumption;
      rewrite E1, E2; lia.
  - simpl. rewrite E1, E2, upd_upd. unfold o1.
    rewrite set_count_twice, set_count_self, upd_self by exact Ho.
    repeat split.
Qed.

Lemma Retain_Release_roundtrip_witness :
  exists s', (Retain 0%nat ;; Release 0%nat) st_ctor_cs = Ok tt s' /\
    objs s' = objs st_ctor_cs /\ locks s' = locks st_ctor_cs /\
    next_lock s' = next_lock st_ctor_cs.
Proof.
  apply (Retain_Release_roundtrip st_ctor_cs 0%nat 0%nat
           (mkSmartObject 1 (Some 0%nat) LOCK_POLICY_CRITICALSECTION) CriticalSectionEx 0%nat);
    try (vm_compute; reflexivity). simpl. lia.
Defined.

(** Release then Retain on an object whose count [c] satisfies
    [2 <= c < 2^31] return normally and restore the object heap, the lock
    heap and the allocator exactly. *)
Theorem Release_Retain_roundtrip (s : St) (this l : nat) (o : SmartObject)
    (k : LockKind) (h : nat)
    (Ho : objs s this = Some o) (Hl : m_refCounterLock o = Some l)
    (Hb : locks s l = Some (mkBaseLock k h)) (Hc : 2 <= m_refCount o < 2^31) :
  exists s', (Release this ;; Retain this) s = Ok tt s' /\
    objs s' = objs s /\ locks s' = locks s /\ next_lock s' = next_lock s.
Proof.
  assert (E1 : int32 (m_refCount o - 1) = m_refCount o - 1) by (apply int32_small; lia).
  assert (E2 : int32 (m_refCount o - 1 + 1) = m_refCount o)
    by (replace (m_refCount o - 1 + 1) with (m_refCount o) by lia; apply int32_small; lia).
  rewrite (bind_ok _ _ _ _ _ (Release_keep s this l o k h Ho Hl Hb
                                ltac:(rewrite E1; lia) ltac:(rewrite E1; lia))).
  set (o1 := set_count o (int32 (m_refCount o - 1))).
  eexists. split.
  - apply (Retain_spec _ this l o1 k h); simpl; try apply upd_eq; assumption.
  - simpl. rewrite E1, E2, upd_upd. unfold o1.
    rewrite set_count_twice, set_count_self, upd_self by exact Ho.
    repeat split.
Qed.

Lemma Release_Retain_roundtrip_witness :
  exists s', (Release 0%nat ;; Retain 0%nat) st_retained_cs = Ok tt s' /\
    objs s' = objs st_retained_cs /\ locks s' = locks st_retained_cs /\
    next_lock s' = next_lock st_retained_cs.
Proof.
  apply (Release_Retain_roundtrip st_retained_cs 0%nat 0%nat
           (mkSmartObject 2 (Some 0%nat) LOCK_POLICY_CRITICALSECTION) CriticalSectionEx 0%nat);
    try (vm_compute; reflexivity). simpl. lia.
Defined.

(** [EP_DELETE] of an object whose count is any [int] value: the
    destructor returns normally exactly when the count is 1; for any other
    count it raises the runtime error carrying the decremented count. *)
Theorem delete_succeeds_iff_count_one (s : St) (this l : nat) (o : SmartObject)
    (k : LockKind) (h : nat)
    (Ho : objs s this = Some o) (Hl : m_refCounterLock o = Some l)
    (Hb : locks s l = Some (mkBaseLock k h)) (Hr : int_range (m_refCount o)) :
  ((exists s', delete_this this s = Ok tt s') <-> m_refCount o = 1) /\
  (m_refCount o <> 1 ->
   exists s', delete_this this s = Thrown (runtime_error (int32 (m_refCount o - 1))) s').
Proof.
  split; [split|].
  - intros [s' H]. destruct (Z.eq_dec (int32 (m_refCount o - 1)) 0) as [Z0|Z0].
    + exact (int32_pred_zero _ Hr Z0).
    + rewrite (delete_nonzero s this l o k h Ho Hl Hb Z0) in H. discriminate.
  - intro H1. eexists. apply (delete_zero s this l o k h Ho Hl Hb). rewrite H1. reflexivity.
  - intro Hne. eexists. apply (delete_nonzero s this l o k h Ho Hl Hb).
    intro Z0. exact (Hne (int32_pred_zero _ Hr Z0)).
Qed.

Lemma delete_succeeds_iff_count_one_witness :
  ((exists s', delete_this 0%nat st_retained_cs = Ok tt s') <->
     m_refCount (mkSmartObject 2 (Some 0%nat) LOCK_POLICY_CRITICALSECTION) = 1) /\
  (m_refCount (mkSmartObject 2 (Some 0%nat) LOCK_POLICY_CRITICALSECTION) <> 1 ->
   exists s', delete_this 0%nat st_retained_cs =
              Thrown (runtime_error (int32 (m_refCount
                (mkSmartObject 2 (Some 0%nat) LOCK_POLICY_CRITICALSECTION) - 1))) s').
Proof.
  apply (delete_succeeds_iff_count_one st_retained_cs 0%nat 0%nat
           (mkSmartObject 2 (Some 0%nat) LOCK_POLICY_CRITICALSECTION) CriticalSectionEx 0%nat);
    try (vm_compute; reflexivity). unfold int_range. simpl. lia.
Defined.

(** Whatever Retain/Release sequence follows construction with a
    recognised policy, if it returns normally then either the object is
    alive with its own lock pointer and policy and that lock is not held,
    or the object and its lock have both been freed. *)
Theorem ctor_run_ok_lock_released (s : St) (this : nat) (p : LockPolicy) (kd : LockKind)
    (ops : list Op) (Hp : policy_kind p = Some kd) (s' : St)
    (Hrun : (SmartObject_ctor this p ;; run this ops) s = Ok tt s') :
  (exists o', objs s' this = Some o' /\ m_refCounterLock o' = Some (next_lock s) /\
              m_lockPolicy o' = p /\ locks s' (next_lock s) = Some (mkBaseLock kd 0))
  \/ (objs s' this = None /\ locks s' (next_lock s) = None).
Proof.
  destruct (after_ctor s this p kd Hp) as [s1 [Hc [Ho [Hb _]]]].
  pose proof (run_outcome this (next_lock s) kd 0 ops s1 _ Ho eq_refl Hb) as H.
  rewrite (bind_ok _ _ _ _ _ Hc) in Hrun. rewrite Hrun in H. exact H.
Qed.

Lemma ctor_run_ok_lock_released_witness :
  (exists o', objs st_ops_example 0%nat = Some o' /\
              m_refCounterLock o' = Some (next_lock empty_st) /\
              m_lockPolicy o' = LOCK_POLICY_MUTEX /\
              locks st_ops_example (next_lock empty_st) = Some (mkBaseLock Mutex 0))
  \/ (objs st_ops_example 0%nat = None /\ locks st_ops_example (next_lock empty_st) = None).
Proof.
  apply (ctor_run_ok_lock_released empty_st 0%nat LOCK_POLICY_MUTEX Mutex
           [ORetain; ORetain; ORelease] eq_refl st_ops_example).
  vm_compute. reflexivity.
Defined.

(** The only exception a Retain/Release sequence on a live object can
    raise is the negative-count domain error: it carries a negative
    count, the object is left alive with that count, and its lock is
    left held once more than before. *)
Theorem run_raises_only_negative_count (s : St) (this l : nat) (o : SmartObject)
    (k : LockKind) (h : nat)
    (Ho : objs s this = Some o) (Hl : m_refCounterLock o = Some l)
    (Hb : locks s l = Some (mkBaseLock k h))
    (ops : list Op) (e : Exc) (s' : St) (Hrun : run this ops s = Thrown e s') :
  exists c, e = domain_error c /\ c < 0 /\ objs s' this = Some (set_count o c) /\
            locks s' l = Some (mkBaseLock k (S h)).
Proof.
  pose proof (run_outcome this l k h ops s o Ho Hl Hb) as H.
  rewrite Hrun in H. exact H.
Qed.

Lemma run_raises_only_negative_count_witness :
  exists c, domain_error (-1) = domain_error c /\ c < 0 /\
    objs (match run 0%nat [ORelease; ORetain] st_zero_cs with
          | Thrown _ s => s | _ => empty_st end) 0%nat =
      Some (set_count (mkSmartObject 0 (Some 0%nat) LOCK_POLICY_CRITICALSECTION) c) /\
    locks (match run 0%nat [ORelease; ORetain] st_zero_cs with
           | Thrown _ s => s | _ => empty_st end) 0%nat =
      Some (mkBaseLock CriticalSectionEx 1).
Proof.
  apply run_raises_only_negative_count with (s := st_zero_cs) (this := 0%nat) (l := 0%nat)
    (o := mkSmartObject 0 (Some 0%nat) LOCK_POLICY_CRITICALSECTION)
    (k := CriticalSectionEx) (h := 0%nat) (ops := [ORelease; ORetain]);
    vm_compute; reflexivity.
Defined.

(** The two-object state [st_O_P] keeps the lock ownership discipline. *)
Lemma st_O_P_owned : owned_locks_ok st_O_P.
Proof.
  split.
  - intros x o l H1 H2.
    destruct x as [|[|x]]; vm_compute in H1; try discriminate;
      injection H1 as <-; vm_compute in H2; injection H2 as <-; vm_compute; lia.
  - intros x y ox oy l Hxy H1 H2 H3 H4.
    destruct x as [|[|x]]; destruct y as [|[|y]]; vm_compute in H1, H2;
      try discriminate; try (apply Hxy; reflexivity);
      injection H1 as <-; injection H2 as <-; vm_compute in H3, H4; congruence.
Qed.

(** Every method keeps the lock ownership discipline: if every live
    object's lock pointer was allocated before [next_lock] and no two live
    objects share one, this still holds after either constructor, Retain,
    Release or [EP_DELETE this], whether it returns or raises. *)
Theorem methods_preserve_owned_locks (s : St) (this b : nat) (p : LockPolicy)
    (Hinv : owned_locks_ok s) :
  (forall s', res_state (SmartObject_ctor this p s) = Some s' -> owned_locks_ok s') /\
  (forall s', res_state (SmartObject_copy this b s) = Some s' -> owned_locks_ok s') /\
  (forall s', res_state (Retain this s) = Some s' -> owned_locks_ok s') /\
  (forall s', res_state (Release this s) = Some s' -> owned_locks_ok s') /\
  (forall s', res_state (delete_this this s) = Some s' -> owned_locks_ok s').
Proof.
  split; [|split; [|split; [|split]]]; intros s' H.
  - exact (ctor_preserves s this p s' H Hinv).
  - exact (copy_preserves s this b s' H Hinv).
  - exact (frame_preserves this s s' (Retain_frame s this s' H) Hinv).
  - exact (frame_preserves this s s' (Release_frame s this s' H) Hinv).
  - exact (frame_preserves this s s' (delete_frame s this s' H) Hinv).
Qed.

(** On [st_O_P] (O at 0 with count 1, P at 1 with count 3): a third
    object built by each constructor, a Retain of O, a Release of P, and
    a raising [EP_DELETE] of P (count 3). *)
Lemma methods_preserve_owned_locks_witness :
  owned_locks_ok (st_of (SmartObject_ctor 2%nat LOCK_POLICY_NONE st_O_P)) /\
  owned_locks_ok (st_of (SmartObject_copy 2%nat 1%nat st_O_P)) /\
  owned_locks_ok (st_of (Retain 0%nat st_O_P)) /\
  owned_locks_ok (st_of (Release 1%nat st_O_P)) /\
  owned_locks_ok (st_of (delete_this 1%nat st_O_P)) /\
  exists e, delete_this 1%nat st_O_P = Thrown e (st_of (delete_this 1%nat st_O_P)).
Proof.
  split; [|split; [|split; [|split; [|split]]]].
  - apply (proj1 (methods_preserve_owned_locks st_O_P 2%nat 1%nat LOCK_POLICY_NONE
                    st_O_P_owned)). vm_compute. reflexivity.
  - apply (proj1 (proj2 (methods_preserve_owned_locks st_O_P 2%nat 1%nat LOCK_POLICY_NONE
                           st_O_P_owned))). vm_compute. reflexivity.
  - apply (proj1 (proj2 (proj2 (methods_preserve_owned_locks st_O_P 0%nat 1%nat
             LOCK_POLICY_NONE st_O_P_owned)))). vm_compute. reflexivity.
  - apply (proj1 (proj2 (proj2 (proj2 (methods_preserve_owned_locks st_O_P 1%nat 1%nat
             LOCK_POLICY_NONE st_O_P_owned))))). vm_compute. reflexivity.
  - apply (proj2 (proj2 (proj2 (proj2 (methods_preserve_owned_locks st_O_P 1%nat 1%nat
             LOCK_POLICY_NONE st_O_P_owned))))). vm_compute. reflexivity.
  - eexists. vm_compute. reflexivity.
Defined.

(** Under that discipline a Retain, Release or [EP_DELETE] on one object
    leaves every other live object, and the state of that object's lock,
    exactly as they were. *)
Theorem method_leaves_other_objects (s s' : St) (this y ly : nat) (oy : SmartObject)
    (Hinv : owned_locks_ok s) (Hy : y <> this)
    (Hoy : objs s y = Some oy) (Hly : m_refCounterLock oy = Some ly)
    (Hres : res_state (Retain this s) = Some s' \/ res_state (Release this s) = Some s' \/
            res_state (delete_this this s) = Some s') :
  objs s' y = Some oy /\ locks s' ly = locks s ly.
Proof.
  assert (F : frame_ok this s s')
    by (destruct Hres as [H|[H|H]];
        [apply Retain_frame | apply Release_frame | apply delete_frame]; exact H).
  destruct F as [_ [Hx [o [l [Ho [Hl [Hlk _]]]]]]]. destruct Hinv as [_ Hu].
  split; [rewrite Hx by exact Hy; exact Hoy|].
  apply Hlk. intro E. subst ly. exact (Hu y this oy o l Hy Hoy Ho Hly Hl).
Qed.

Lemma method_leaves_other_objects_witness :
  objs (match Release 0%nat st_O_P with Ok _ s => s | Thrown _ s => s | Undef => empty_st end)
       1%nat = Some (mkSmartObject 3 (Some 1%nat) LOCK_POLICY_CRITICALSECTION) /\
  locks (match Release 0%nat st_O_P with Ok _ s => s | Thrown _ s => s | Undef => empty_st end)
        1%nat = locks st_O_P 1%nat.
Proof.
  pose proof st_O_P_owned as Hinv.
  apply (method_leaves_other_objects st_O_P _ 0%nat 1%nat 1%nat
           (mkSmartObject 3 (Some 1%nat) LOCK_POLICY_CRITICALSECTION) Hinv);
    try (vm_compute; reflexivity); [lia|].
  right. left. vm_compute. reflexivity.
Defined.

(** The copy constructor on a source whose policy is not one of the three
    enumerators takes the [default] branch: the copy gets count 1, the
    source's policy and a null lock, nothing is allocated, and a later
    Retain or Release on the copy calls through the null pointer. *)
Theorem copy_unrecognised_policy_null_lock (s : St) (this b : nat) (ob : SmartObject)
    (raw : Z) (Hb : objs s b = Some ob) (Hp : m_lockPolicy ob = LOCK_POLICY_OTHER raw) :
  exists s', SmartObject_copy this b s = Ok tt s' /\
    objs s' this = Some (mkSmartObject 1 None (LOCK_POLICY_OTHER raw)) /\
    locks s' = locks s /\ next_lock s' = next_lock s /\
    Retain this s' = Undef /\ Release this s' = Undef.
Proof.
  eexists. split; [exact (copy_other s this b ob raw Hb Hp)|].
  cbn [objs locks next_lock]. rewrite upd_eq.
  split; [reflexivity|]. split; [reflexivity|]. split; [reflexivity|].
  split; [apply (Retain_null _ this (mkSmartObject 1 None (LOCK_POLICY_OTHER raw)))
         | apply (Release_null _ this (mkSmartObject 1 None (LOCK_POLICY_OTHER raw)))];
    try reflexivity; cbn [objs]; apply upd_eq.
Qed.

Lemma copy_unrecognised_policy_null_lock_witness :
  exists s', SmartObject_copy 1%nat 0%nat
               (match SmartObject_ctor 0%nat (LOCK_POLICY_OTHER 7) empty_st with
                | Ok _ s => s | _ => empty_st end) = Ok tt s' /\
    objs s' 1%nat = Some (mkSmartObject 1 None (LOCK_POLICY_OTHER 7)) /\
    locks s' = locks (match SmartObject_ctor 0%nat (LOCK_POLICY_OTHER 7) empty_st with
                      | Ok _ s => s | _ => empty_st end) /\
    next_lock s' = next_lock (match SmartObject_ctor 0%nat (LOCK_POLICY_OTHER 7) empty_st with
                              | Ok _ s => s | _ => empty_st end) /\
    Retain 1%nat s' = Undef /\ Release 1%nat s' = Undef.
Proof.
  apply (copy_unrecognised_policy_null_lock _ 1%nat 0%nat
           (mkSmartObject 1 None (LOCK_POLICY_OTHER 7)) 7); vm_compute; reflexivity.
Defined.
